(** * File synchronisation tool (013_file_sync_tool/file_sync_tool.go)

    A shallow embedding of the directory scanner, the difference
    computation, the copy / delete / conflict actions and the
    synchronisation cycle, together with the properties of the design
    document that concern them. *)

From stdpp Require Import gmap strings list fin_maps sorting pretty.
From Stdlib Require Import ZArith NArith Ascii.

Open Scope Z_scope.

(** ** Paths

    A path is the list of its components, as [filepath.Clean] leaves
    them: [filepath.Join] concatenates, [filepath.Dir] drops the last
    component, [filepath.Base] is the last component and [filepath.Rel]
    strips the root.  Relative paths (the keys of a scan) are component
    lists below the scanned root. *)

Abbreviation path := (list string).

Definition Join (dir rel : path) : path := dir ++ rel.

Definition Dir (p : path) : path := removelast p.

Definition Base (p : path) : string := List.last p ".".

Definition Rel (base target : path) : path := drop (length base) target.

(** [relPath + suffix]: string concatenation lands in the last
    component; on the empty path it yields a one-component path. *)
Definition add_suffix (p : path) (suffix : string) : path :=
  match p with
  | [] => [suffix]
  | _ => removelast p ++ [List.last p EmptyString +:+ suffix]
  end.

(** ** Time

    A [time.Time] is its instant, in nanoseconds since the epoch; a
    [time.Duration] is a number of nanoseconds.  File timestamps stay far
    from the range where Go's [Add] saturates. *)

Module Time.
Definition Second : Z := 1000000000.
Definition Add (x : Z) (d : Z) : Z := x + d.
(** [x.After(u)]: x is strictly later than u. *)
Definition After (x u : Z) : bool := u <? x.
End Time.

(** ** Configuration and records *)

Record SyncConfig := {
  SourceDir : path;
  TargetDir : path;
  SyncMode : string;
  CheckInterval : Z;
  MaxFileSize : Z;
  IncludePattern : string;
  ExcludePattern : string;
  DryRun : bool;
  Verbose : bool
}.

Record FileInfo := {
  Path : path;
  Size : Z;
  ModTime : Z;
  Checksum : string;
  IsDir : bool
}.

#[global] Instance FileInfo_eq_dec : EqDecision FileInfo.
Proof. solve_decision. Defined.

Record FileSyncTool := {
  Config : SyncConfig;
  FileCache : gmap path FileInfo
}.

Definition NewFileSyncTool (config : SyncConfig) : FileSyncTool :=
  {| Config := config; FileCache := ∅ |}.

(** ** The difference computation of [CompareDirectories]

    A Go [for k, v := range m] loop that appends the selected keys to a
    slice.  Go leaves the iteration order unspecified; the model fixes
    the order of [map_to_list], and the properties below speak about
    membership only. *)

Definition range_append {V} (m : gmap path V) (sel : path → V → bool) : list path :=
  foldl (λ acc kv, if sel kv.1 kv.2 then acc ++ [kv.1] else acc) [] (map_to_list m).

(** Body of the first loop: is [relPath] appended to [toCopy]? *)
Definition copy_selected (targetFiles : gmap path FileInfo)
    (relPath : path) (sourceFile : FileInfo) : bool :=
  match targetFiles !! relPath with
  | None => true
  | Some targetFile =>
      if negb (IsDir sourceFile) && negb (IsDir targetFile) then
        bool_decide (Size sourceFile ≠ Size targetFile)
        || Time.After (ModTime sourceFile) (Time.Add (ModTime targetFile) Time.Second)
        || bool_decide (Checksum sourceFile ≠ Checksum targetFile)
      else false
  end.

(** Body of the second loop: is [relPath] appended to [toDelete]? *)
Definition delete_selected (sourceFiles : gmap path FileInfo)
    (relPath : path) (_ : FileInfo) : bool :=
  match sourceFiles !! relPath with
  | None => true
  | Some _ => false
  end.

(** Body of the third loop: is [relPath] appended to [conflicts]? *)
Definition conflict_selected (targetFiles : gmap path FileInfo)
    (relPath : path) (sourceFile : FileInfo) : bool :=
  match targetFiles !! relPath with
  | Some targetFile =>
      negb (IsDir sourceFile) && negb (IsDir targetFile)
      && bool_decide (Checksum sourceFile ≠ Checksum targetFile)
      && Time.After (ModTime sourceFile) (ModTime targetFile)
      && Time.After (ModTime targetFile) (Time.Add (ModTime sourceFile) (- Time.Second))
  | None => false
  end.

(** The three result slices of [CompareDirectories], once both scans
    have succeeded. *)
Definition compare_snapshots (mode : string)
    (sourceFiles targetFiles : gmap path FileInfo)
  : list path * list path * list path :=
  let toCopy := range_append sourceFiles (copy_selected targetFiles) in
  let toDelete := range_append targetFiles (delete_selected sourceFiles) in
  let conflicts :=
    if bool_decide (mode = "bidirectional")
    then range_append sourceFiles (conflict_selected targetFiles)
    else [] in
  (toCopy, toDelete, conflicts).

Definition plan_toCopy (plan : list path * list path * list path) : list path := plan.1.1.
Definition plan_toDelete (plan : list path * list path * list path) : list path := plan.1.2.
Definition plan_conflicts (plan : list path * list path * list path) : list path := plan.2.

(** Concrete records used by the examples. *)
Definition file_record (p : path) (size mtime : Z) (sum : string) : FileInfo :=
  {| Path := p; Size := size; ModTime := mtime; Checksum := sum; IsDir := false |}.

(** ** The file system

    The tree is a finite map from paths to nodes, rooted at the working
    directory [[]].  Permissions are the mode bits of the owner (the
    process is the owner and is not the superuser); search permission,
    symbolic links and access times are not modelled, and directory
    timestamps are not refreshed when entries change. *)

Inductive error :=
| ENOENT | EACCES | ENOTDIR | EISDIR | ENOTEMPTY | EEXIST | EINVAL
| ErrMkdir (cause : error).

Inductive result (A : Type) :=
| Ok (a : A)
| Err (e : error).
Arguments Ok {A} a.
Arguments Err {A} e.

Inductive node :=
| File (mode : N) (mtime : Z) (data : list Byte.byte)
| Directory (mode : N) (mtime : Z).

(** What [os.FileInfo] exposes to the tool. *)
Record OsFileInfo := {
  info_Size : Z;
  info_ModTime : Z;
  info_IsDir : bool;
  info_Mode : N
}.

(** The size the system reports for a directory; the tool stores it but
    never compares it. *)
Definition dir_size : Z := 4096.

Definition node_info (n : node) : OsFileInfo :=
  match n with
  | File mode mtime data =>
      {| info_Size := Z.of_nat (length data); info_ModTime := mtime;
         info_IsDir := false; info_Mode := mode |}
  | Directory mode mtime =>
      {| info_Size := dir_size; info_ModTime := mtime;
         info_IsDir := true; info_Mode := mode |}
  end.

Definition perm755 : N := 493.
Definition perm666 : N := 438.

Definition can_read (mode : N) : bool := N.testbit mode 8.
Definition can_write (mode : N) : bool := N.testbit mode 7.

(** Everything a cycle prints or logs, without the formatting. *)
Inductive output :=
| PrintStart (source target : path)
| PrintMode (mode : string)
| PrintDetected (toCopy toDelete conflicts : nat)
| PrintDryCopy (source target : path)
| PrintCopy (source target : path)
| PrintDryDelete (target : path)
| PrintDelete (target : path)
| PrintDryKeepTarget (target : path)
| PrintKeepTarget (target : path)
| PrintDryRename (target renamed : path)
| PrintKeptBoth (target renamed : path)
| PrintConflictsHeader
| PrintConflictFile (file : path)
| PrintChoicePrompt
| PrintDone
| PrintContinuousStart (interval : Z)
| PrintTick (now : Z)
| PrintHelp
| PrintSourceMissing (source : path)
| PrintTargetMissing (target : path)
| PrintCreateTargetFailed (e : error)
| PrintSyncFailed (e : error)
| LogScanSourceFailed (e : error)
| LogScanTargetFailed (e : error)
| LogDeleteFailed (file : path) (e : error)
| LogCopyFailed (file : path) (e : error)
| LogConflictFailed (file : path) (e : error).

(** The world a run acts on.  Standard input is the text still to be
    read, delivered one line per read as a terminal does. *)
Record World := {
  fs : gmap path node;
  stdin : string;
  clock : Z;
  umask : N;
  out : list output
}.

Definition with_fs (f : gmap path node) (w : World) : World :=
  {| fs := f; stdin := stdin w; clock := clock w; umask := umask w; out := out w |}.

Definition with_stdin (s : string) (w : World) : World :=
  {| fs := fs w; stdin := s; clock := clock w; umask := umask w; out := out w |}.

Definition with_clock (c : Z) (w : World) : World :=
  {| fs := fs w; stdin := stdin w; clock := c; umask := umask w; out := out w |}.

Definition with_out (o : list output) (w : World) : World :=
  {| fs := fs w; stdin := stdin w; clock := clock w; umask := umask w; out := o |}.

(** ** The monad of effectful functions: state passing over the world.
    A Go [error] is an [option error], [None] being [nil]. *)

Definition M (A : Type) : Type := World → A * World.

#[global] Instance M_ret : MRet M := λ A x w, (x, w).
#[global] Instance M_bind : MBind M := λ A B f m w, let '(x, w') := m w in f x w'.

Definition get_fs : M (gmap path node) := λ w, (fs w, w).
Definition put_fs (f : gmap path node) : M unit := λ w, (tt, with_fs f w).
Definition Now : M Z := λ w, (clock w, w).
Definition get_umask : M N := λ w, (umask w, w).
Definition emit (o : output) : M unit := λ w, (tt, with_out (out w ++ [o]) w).
Definition when (b : bool) (c : M unit) : M unit := if b then c else mret tt.

Fixpoint for_each {A} (l : list A) (body : A → M unit) : M unit :=
  match l with
  | [] => mret tt
  | x :: l' => body x;; for_each l' body
  end.

(** ** System calls *)

Definition Lstat (p : path) : M (result OsFileInfo) :=
  f ← get_fs;
  match f !! p with
  | Some n => mret (Ok (node_info n))
  | None => mret (Err ENOENT)
  end.

Definition Stat (p : path) : M (result OsFileInfo) := Lstat p.

(** The names below a directory. *)
Definition entries (f : gmap path node) (dir : path) : list path :=
  filter (λ k, k ≠ [] ∧ Dir k = dir) (map_to_list f).*1.

(** May an entry be created in, or removed from, the parent of [p]? *)
Definition parent_check (f : gmap path node) (p : path) : option error :=
  match p with
  | [] => Some EINVAL
  | _ =>
      match f !! Dir p with
      | None => Some ENOENT
      | Some (File _ _ _) => Some ENOTDIR
      | Some (Directory mode _) => if can_write mode then None else Some EACCES
      end
  end.

Definition Mkdir (p : path) (perm : N) : M (option error) :=
  f ← get_fs;
  match f !! p with
  | Some _ => mret (Some EEXIST)
  | None =>
      match parent_check f p with
      | Some e => mret (Some e)
      | None =>
          now ← Now;
          mask ← get_umask;
          put_fs (<[p := Directory (N.ldiff perm mask) now]> f);;
          mret None
      end
  end.

(** [os.MkdirAll]: succeed at once on an existing directory, fail on an
    existing file, otherwise make the parent and then the directory.
    The counter is the number of components, so the recursion always
    reaches the top. *)
Fixpoint mkdirAll (depth : nat) (p : path) (perm : N) : M (option error) :=
  f ← get_fs;
  match f !! p with
  | Some (Directory _ _) => mret None
  | Some (File _ _ _) => mret (Some ENOTDIR)
  | None =>
      match depth with
      | O => Mkdir p perm
      | S depth' =>
          err ← mkdirAll depth' (Dir p) perm;
          match err with
          | Some e => mret (Some e)
          | None => Mkdir p perm
          end
      end
  end.

Definition MkdirAll (p : path) (perm : N) : M (option error) :=
  mkdirAll (length p) p perm.

(** [os.Open]: open for reading; a directory can be opened, its bytes
    cannot be read. *)
Definition Open (p : path) : M (option error) :=
  f ← get_fs;
  match f !! p with
  | None => mret (Some ENOENT)
  | Some (File mode _ _) | Some (Directory mode _) =>
      mret (if can_read mode then None else Some EACCES)
  end.

(** [os.Create]: create the file or truncate it. *)
Definition Create (p : path) : M (option error) :=
  f ← get_fs;
  now ← Now;
  match f !! p with
  | Some (Directory _ _) => mret (Some EISDIR)
  | Some (File mode _ _) =>
      if can_write mode
      then put_fs (<[p := File mode now []]> f);; mret None
      else mret (Some EACCES)
  | None =>
      match parent_check f p with
      | Some e => mret (Some e)
      | None =>
          mask ← get_umask;
          put_fs (<[p := File (N.ldiff perm666 mask) now []]> f);;
          mret None
      end
  end.

(** Reading an open file to its end. *)
Definition read_all (p : path) : M (result (list Byte.byte)) :=
  f ← get_fs;
  match f !! p with
  | Some (File _ _ data) => mret (Ok data)
  | Some (Directory _ _) => mret (Err EISDIR)
  | None => mret (Err ENOENT)
  end.

(** [io.Copy(dst, src)] between two open files: the bytes of [src], read
    now, become the bytes of [dst]. *)
Definition io_Copy (dst src : path) : M (option error) :=
  r ← read_all src;
  match r with
  | Err e => mret (Some e)
  | Ok data =>
      f ← get_fs;
      now ← Now;
      match f !! dst with
      | Some (File mode _ _) => put_fs (<[dst := File mode now data]> f);; mret None
      | _ => mret (Some EINVAL)
      end
  end.

Definition Chmod (p : path) (mode : N) : M (option error) :=
  f ← get_fs;
  match f !! p with
  | Some (File _ mtime data) => put_fs (<[p := File mode mtime data]> f);; mret None
  | Some (Directory _ mtime) => put_fs (<[p := Directory mode mtime]> f);; mret None
  | None => mret (Some ENOENT)
  end.

Definition Chtimes (p : path) (atime mtime : Z) : M (option error) :=
  f ← get_fs;
  match f !! p with
  | Some (File mode _ data) => put_fs (<[p := File mode mtime data]> f);; mret None
  | Some (Directory mode _) => put_fs (<[p := Directory mode mtime]> f);; mret None
  | None => mret (Some ENOENT)
  end.

(** [os.Remove]: a file, or an empty directory. *)
Definition Remove (p : path) : M (option error) :=
  f ← get_fs;
  match f !! p with
  | None => mret (Some ENOENT)
  | Some n =>
      match parent_check f p with
      | Some e => mret (Some e)
      | None =>
          match n, entries f p with
          | Directory _ _, _ :: _ => mret (Some ENOTEMPTY)
          | _, _ => put_fs (delete p f);; mret None
          end
      end
  end.

(** Moving the subtree at [old] to [new]. *)
Definition move_subtree (old new : path) (f : gmap path node) : gmap path node :=
  let moved := filter (λ kv, old `prefix_of` kv.1) (map_to_list f) in
  let rest := filter (λ kv, ¬ old `prefix_of` kv.1) f in
  foldr (λ kv acc, <[new ++ drop (length old) kv.1 := kv.2]> acc) rest moved.

(** [os.Rename]. *)
Definition Rename (old new : path) : M (option error) :=
  f ← get_fs;
  match f !! old with
  | None => mret (Some ENOENT)
  | Some n =>
      if bool_decide (old = new) then mret None else
      match parent_check f old, parent_check f new with
      | Some e, _ | None, Some e => mret (Some e)
      | None, None =>
          match n, f !! new with
          | File _ _ _, Some (Directory _ _) => mret (Some EISDIR)
          | File _ _ _, _ => put_fs (<[new := n]> (delete old f));; mret None
          | Directory _ _, Some (File _ _ _) => mret (Some ENOTDIR)
          | Directory _ _, Some (Directory _ _) =>
              match entries f new with
              | _ :: _ => mret (Some ENOTEMPTY)
              | [] => put_fs (move_subtree old new (delete new f));; mret None
              end
          | Directory _ _, None =>
              if bool_decide (old `prefix_of` new) then mret (Some EINVAL)
              else put_fs (move_subtree old new f);; mret None
          end
      end
  end.

(** ** [filepath.Walk]

    The walk calls its function on the root and then, in lexical order,
    on everything below it, descending only into directories it can
    list; a directory it cannot list is reported with the error.  The
    walk stops at the first error the function returns, which the
    scanner's function does exactly when it is handed one. *)

Inductive walk_event :=
| Visit (p : path) (info : OsFileInfo)
| VisitErr (p : path) (err : error).

Fixpoint path_leb (a b : path) : bool :=
  match a, b with
  | [], _ => true
  | _ :: _, [] => false
  | x :: a', y :: b' =>
      match String.compare x y with
      | Lt => true
      | Gt => false
      | Eq => path_leb a' b'
      end
  end.

Definition path_le (a b : path) : Prop := path_leb a b = true.

#[global] Instance path_le_dec : RelDecision path_le.
Proof. intros a b. unfold path_le. apply _. Defined.

Definition listable (f : gmap path node) (p : path) : bool :=
  match f !! p with
  | Some (Directory mode _) => can_read mode
  | _ => false
  end.

(** Every directory from [root] down to the parent of [root ++ rel] can
    be listed. *)
Definition reachable (f : gmap path node) (root rel : path) : bool :=
  forallb (λ i, listable f (root ++ take i rel)) (seq 0 (length rel)).

Definition walk_event_of (f : gmap path node) (p : path) : walk_event :=
  match f !! p with
  | None => VisitErr p ENOENT
  | Some (Directory mode mtime) =>
      if can_read mode then Visit p (node_info (Directory mode mtime))
      else VisitErr p EACCES
  | Some n => Visit p (node_info n)
  end.

Definition walk_events (f : gmap path node) (root : path) : list walk_event :=
  match f !! root with
  | None => [VisitErr root ENOENT]
  | Some _ =>
      walk_event_of f <$>
        merge_sort path_le
          (filter (λ k, root `prefix_of` k ∧ reachable f root (Rel root k) = true)
                  (map_to_list f).*1)
  end.

(** ** Standard input *)

Definition is_newline (c : ascii) : bool := bool_decide (c = "010"%char).

(** [reader.ReadString('\n')]: up to and including the next newline, or
    whatever is left at the end of input. *)
Fixpoint read_line (s : string) : string * string :=
  match s with
  | EmptyString => (EmptyString, EmptyString)
  | String c rest =>
      if is_newline c then (String c EmptyString, rest)
      else let '(l, rest') := read_line rest in (String c l, rest')
  end.

Definition ReadString : M string :=
  λ w, let '(l, rest) := read_line (stdin w) in (l, with_stdin rest w).

Definition is_space (c : ascii) : bool :=
  bool_decide (c = " "%char) || bool_decide (c = "009"%char)
  || bool_decide (c = "010"%char) || bool_decide (c = "011"%char)
  || bool_decide (c = "012"%char) || bool_decide (c = "013"%char).

Fixpoint trim_left (s : string) : string :=
  match s with
  | String c rest => if is_space c then trim_left rest else s
  | EmptyString => EmptyString
  end.

Fixpoint trim_right (s : string) : string :=
  match s with
  | String c rest =>
      match trim_right rest with
      | EmptyString => if is_space c then EmptyString else String c EmptyString
      | r => String c r
      end
  | EmptyString => EmptyString
  end.

(** [strings.TrimSpace], on the ASCII white space. *)
Definition TrimSpace (s : string) : string := trim_right (trim_left s).

(** ** The tool

    What the tool takes from libraries outside the repository: the
    digest primitive, shell-pattern matching and the formatting of a
    time stamp. *)

Record Externals := {
  (** [hex.EncodeToString] of the MD5 sum of the bytes *)
  md5_hex : list Byte.byte → string;
  (** the [matched] result of [filepath.Match pattern name] *)
  path_Match : string → string → bool;
  (** [Time.Format("20060102_150405")] *)
  format_stamp : Z → string
}.

(** How [main] ends: it returns, calls [os.Exit], is still in the ticker
    loop when the observation stops, or panics. *)
Inductive outcome :=
| Returned
| Exited (code : Z)
| Looping
| Panicked.

(** The command-line flags after [flag.Parse].  A directory flag that
    is the empty string is the empty list of components. *)
Record Flags := {
  flag_source : path;
  flag_target : path;
  flag_mode : string;
  flag_interval : Z;
  flag_maxsize : Z;
  flag_include : string;
  flag_exclude : string;
  flag_dryrun : bool;
  flag_continuous : bool;
  flag_verbose : bool;
  flag_help : bool
}.

Definition IsNotExist {A} (r : result A) : bool :=
  match r with
  | Err ENOENT => true
  | _ => false
  end.

Section Tool.
Variable E : Externals.

(** CalculateChecksum: the digest and the error. *)
Definition CalculateChecksum (fst : FileSyncTool) (filePath : path)
  : M (string * option error) :=
  err ← Open filePath;
  match err with
  | Some e => mret (EmptyString, Some e)
  | None =>
      r ← read_all filePath;
      match r with
      | Err e => mret (EmptyString, Some e)
      | Ok data => mret (md5_hex E data, None)
      end
  end.

Definition shouldIncludeFile (fst : FileSyncTool) (relPath : path)
    (info : OsFileInfo) : bool :=
  let cfg := Config fst in
  if info_IsDir info then true
  else if negb (bool_decide (IncludePattern cfg = EmptyString))
          && negb (path_Match E (IncludePattern cfg) (Base relPath)) then false
  else if negb (bool_decide (ExcludePattern cfg = EmptyString))
          && path_Match E (ExcludePattern cfg) (Base relPath) then false
  else if MaxFileSize cfg <? info_Size info then false
  else true.

(** The function [ScanDirectory] hands to the walk: the map after the
    call and the error it returns. *)
Definition scan_visit (fst : FileSyncTool) (dirPath : path)
    (files : gmap path FileInfo) (ev : walk_event)
  : M (gmap path FileInfo * option error) :=
  match ev with
  | VisitErr _ err => mret (files, Some err)
  | Visit p info =>
      if bool_decide (p = dirPath) then mret (files, None) else
      let relPath := Rel dirPath p in
      if negb (shouldIncludeFile fst relPath info) then mret (files, None) else
      let fileInfo := {| Path := relPath; Size := info_Size info;
                         ModTime := info_ModTime info;
                         Checksum := EmptyString;
                         IsDir := info_IsDir info |} in
      fileInfo ←
        (if negb (info_IsDir info) && (info_Size info <=? MaxFileSize (Config fst))
         then
           '(checksum, err) ← CalculateChecksum fst p;
           match err with
           | None => mret {| Path := relPath; Size := info_Size info;
                             ModTime := info_ModTime info;
                             Checksum := checksum;
                             IsDir := info_IsDir info |}
           | Some _ => mret fileInfo
           end
         else mret fileInfo);
      mret (<[relPath := fileInfo]> files, None)
  end.

(** The walk: calls in order, stopped by the first error returned. *)
Fixpoint scan_walk (fst : FileSyncTool) (dirPath : path)
    (evs : list walk_event) (files : gmap path FileInfo)
  : M (gmap path FileInfo * option error) :=
  match evs with
  | [] => mret (files, None)
  | ev :: rest =>
      '(files', err) ← scan_visit fst dirPath files ev;
      match err with
      | Some e => mret (files', Some e)
      | None => scan_walk fst dirPath rest files'
      end
  end.

Definition ScanDirectory (fst : FileSyncTool) (dirPath : path)
  : M (gmap path FileInfo * option error) :=
  f ← get_fs;
  scan_walk fst dirPath (walk_events f dirPath) ∅.

Definition CompareDirectories (fst : FileSyncTool)
  : M (list path * list path * list path) :=
  let cfg := Config fst in
  '(sourceFiles, err) ← ScanDirectory fst (SourceDir cfg);
  match err with
  | Some e => emit (LogScanSourceFailed e);; mret ([], [], [])
  | None =>
      '(targetFiles, err) ← ScanDirectory fst (TargetDir cfg);
      match err with
      | Some e => emit (LogScanTargetFailed e);; mret ([], [], [])
      | None => mret (compare_snapshots (SyncMode cfg) sourceFiles targetFiles)
      end
  end.

Definition CopyFile (fst : FileSyncTool) (relPath : path) : M (option error) :=
  let cfg := Config fst in
  let sourcePath := Join (SourceDir cfg) relPath in
  let targetPath := Join (TargetDir cfg) relPath in
  let targetDir := Dir targetPath in
  err ← MkdirAll targetDir perm755;
  match err with
  | Some e => mret (Some (ErrMkdir e))
  | None =>
      if DryRun cfg then
        when (Verbose cfg) (emit (PrintDryCopy sourcePath targetPath));;
        mret None
      else
        err ← Open sourcePath;
        match err with
        | Some e => mret (Some e)
        | None =>
            err ← Create targetPath;
            match err with
            | Some e => mret (Some e)
            | None =>
                err ← io_Copy targetPath sourcePath;
                match err with
                | Some e => mret (Some e)
                | None =>
                    sourceInfo ← Stat sourcePath;
                    match sourceInfo with
                    | Ok info =>
                        Chmod targetPath (info_Mode info);;
                        now ← Now;
                        Chtimes targetPath now (info_ModTime info);;
                        mret tt
                    | Err _ => mret tt
                    end;;
                    when (Verbose cfg) (emit (PrintCopy sourcePath targetPath));;
                    mret None
                end
            end
        end
  end.

Definition DeleteFile (fst : FileSyncTool) (relPath : path) : M (option error) :=
  let cfg := Config fst in
  let targetPath := Join (TargetDir cfg) relPath in
  if DryRun cfg then
    when (Verbose cfg) (emit (PrintDryDelete targetPath));;
    mret None
  else
    err ← Remove targetPath;
    match err with
    | Some e => mret (Some e)
    | None =>
        when (Verbose cfg) (emit (PrintDelete targetPath));;
        mret None
    end.

Definition ResolveConflict (fst : FileSyncTool) (relPath : path)
    (choice : string) : M (option error) :=
  let cfg := Config fst in
  let sourcePath := Join (SourceDir cfg) relPath in
  let targetPath := Join (TargetDir cfg) relPath in
  if bool_decide (choice = "source") then CopyFile fst relPath
  else if bool_decide (choice = "target") then
    if DryRun cfg then
      when (Verbose cfg) (emit (PrintDryKeepTarget targetPath));;
      mret None
    else
      err ← Open targetPath;
      match err with
      | Some e => mret (Some e)
      | None =>
          err ← Create sourcePath;
          match err with
          | Some e => mret (Some e)
          | None =>
              err ← io_Copy sourcePath targetPath;
              match err with
              | Some e => mret (Some e)
              | None =>
                  when (Verbose cfg) (emit (PrintKeepTarget targetPath));;
                  mret None
              end
          end
      end
  else if bool_decide (choice = "both") then
    now ← Now;
    let newName := add_suffix relPath (".conflict_" +:+ format_stamp E now) in
    let newPath := Join (TargetDir cfg) newName in
    if DryRun cfg then
      when (Verbose cfg) (emit (PrintDryRename targetPath newPath));;
      mret None
    else
      err ← Rename targetPath newPath;
      match err with
      | Some e => mret (Some e)
      | None =>
          err ← CopyFile fst relPath;
          match err with
          | Some e => mret (Some e)
          | None =>
              when (Verbose cfg) (emit (PrintKeptBoth targetPath newPath));;
              mret None
          end
      end
  else mret None.

(** The three loops of [RunSync]. *)
Definition run_deletes (fst : FileSyncTool) (toDelete : list path) : M unit :=
  for_each toDelete (λ file,
    err ← DeleteFile fst file;
    match err with
    | Some e => emit (LogDeleteFailed file e)
    | None => mret tt
    end).

Definition run_copies (fst : FileSyncTool) (toCopy : list path) : M unit :=
  for_each toCopy (λ file,
    err ← CopyFile fst file;
    match err with
    | Some e => emit (LogCopyFailed file e)
    | None => mret tt
    end).

Definition run_conflicts (fst : FileSyncTool) (conflicts : list path) : M unit :=
  match conflicts with
  | [] => mret tt
  | _ =>
      emit PrintConflictsHeader;;
      for_each conflicts (λ file,
        emit (PrintConflictFile file);;
        emit PrintChoicePrompt;;
        choice ← ReadString;
        let choice := TrimSpace choice in
        err ← ResolveConflict fst file choice;
        match err with
        | Some e => emit (LogConflictFailed file e)
        | None => mret tt
        end)
  end.

Definition RunSync (fst : FileSyncTool) : M (option error) :=
  let cfg := Config fst in
  emit (PrintStart (SourceDir cfg) (TargetDir cfg));;
  emit (PrintMode (SyncMode cfg));;
  '(toCopy, toDelete, conflicts) ← CompareDirectories fst;
  emit (PrintDetected (length toCopy) (length toDelete) (length conflicts));;
  run_deletes fst toDelete;;
  run_copies fst toCopy;;
  run_conflicts fst conflicts;;
  emit PrintDone;;
  mret None.

(** The ticker loop, observed for a number of ticks. *)
Fixpoint ticker_loop (fst : FileSyncTool) (ticks : nat) : M unit :=
  match ticks with
  | O => mret tt
  | S n =>
      (λ w, (tt, with_clock (clock w + CheckInterval (Config fst)) w));;
      now ← Now;
      emit (PrintTick now);;
      RunSync fst;;
      ticker_loop fst n
  end.

(** ContinuousSync never returns; [time.NewTicker] panics on an
    interval that is not positive. *)
Definition ContinuousSync (fst : FileSyncTool) (ticks : nat) : M outcome :=
  emit (PrintContinuousStart (CheckInterval (Config fst)));;
  if CheckInterval (Config fst) <=? 0 then mret Panicked
  else ticker_loop fst ticks;; mret Looping.

Definition main (fl : Flags) (ticks : nat) : M outcome :=
  if flag_help fl || bool_decide (flag_source fl = [])
     || bool_decide (flag_target fl = []) then
    emit PrintHelp;; mret Returned
  else
    st ← Stat (flag_source fl);
    if IsNotExist st then
      emit (PrintSourceMissing (flag_source fl));; mret (Exited 1)
    else
      st ← Stat (flag_target fl);
      created ←
        (if IsNotExist st then
           emit (PrintTargetMissing (flag_target fl));;
           MkdirAll (flag_target fl) perm755
         else mret None);
      match created with
      | Some e => emit (PrintCreateTargetFailed e);; mret (Exited 1)
      | None =>
          let config := {| SourceDir := flag_source fl;
                           TargetDir := flag_target fl;
                           SyncMode := flag_mode fl;
                           CheckInterval := flag_interval fl;
                           MaxFileSize := flag_maxsize fl;
                           IncludePattern := flag_include fl;
                           ExcludePattern := flag_exclude fl;
                           DryRun := flag_dryrun fl;
                           Verbose := flag_verbose fl |} in
          let syncTool := NewFileSyncTool config in
          err ← RunSync syncTool;
          match err with
          | Some e => emit (PrintSyncFailed e);; mret (Exited 1)
          | None =>
              if flag_continuous fl then ContinuousSync syncTool ticks
              else mret Returned
          end
      end.

End Tool.

(** The cycle up to the conflict loop: the scans, the comparison, the
    deletions and the copies of [RunSync], returning the conflicts still
    to be resolved.  [RunSync] is this prefix followed by the conflict
    loop and the closing message. *)
Definition sync_until_conflicts (E : Externals) (fst : FileSyncTool) : M (list path) :=
  let cfg := Config fst in
  emit (PrintStart (SourceDir cfg) (TargetDir cfg));;
  emit (PrintMode (SyncMode cfg));;
  '(toCopy, toDelete, conflicts) ← CompareDirectories E fst;
  emit (PrintDetected (length toCopy) (length toDelete) (length conflicts));;
  run_deletes fst toDelete;;
  run_copies fst toCopy;;
  mret conflicts.

(** ** Vocabulary of the properties *)

(** Standard input after one more line has been read. *)
Definition drop_line (s : string) : string := (read_line s).2.

(** The walk hands the function an entry, not an error. *)
Definition is_Visit (ev : walk_event) : Prop :=
  match ev with
  | Visit _ _ => True
  | VisitErr _ _ => False
  end.

(** The error with which the walk of [root] starts, if it does: the
    root is missing, or it is a directory that cannot be listed. *)
Definition root_error (f : gmap path node) (root : path) : option error :=
  match f !! root with
  | None => Some ENOENT
  | Some (Directory mode _) => if can_read mode then None else Some EACCES
  | Some (File _ _ _) => None
  end.

(** What a scan of [root] may record under the relative path [p]: an
    entry that exists below the root, is reached through directories
    that can be listed, and passes the filter. *)
Definition recorded (E : Externals) (fst : FileSyncTool)
    (f : gmap path node) (root p : path) (fi : FileInfo) : Prop :=
  p ≠ [] ∧ reachable f root p = true
  ∧ ∃ n, f !! (root ++ p) = Some n
         ∧ shouldIncludeFile E fst p (node_info n) = true
         ∧ Path fi = p ∧ Size fi = info_Size (node_info n)
         ∧ ModTime fi = info_ModTime (node_info n)
         ∧ IsDir fi = info_IsDir (node_info n).

(** An effectful function keeps a relation between the world before and
    the world after. *)
Definition preserves {A} (R : relation World) (m : M A) : Prop := ∀ w, R w (m w).2.

(** Nothing that exists is changed or removed. *)
Definition grows : relation World :=
  λ w w', ∀ k n, fs w !! k = Some n → fs w' !! k = Some n.

(** Nothing that exists is changed or removed, except at [T]. *)
Definition keeps (T : path) : relation World :=
  λ w w', ∀ k n, fs w !! k = Some n → k ≠ T → fs w' !! k = Some n.

Definition same_stdin : relation World := λ w w', stdin w' = stdin w.


(** The digest a scan stores for an entry: the MD5 of the bytes of a
    file that can be read, nothing for a directory or for a file that
    cannot be opened. *)
Definition node_digest (E : Externals) (n : node) : string :=
  match n with
  | File mode _ data => if can_read mode then md5_hex E data else EmptyString
  | Directory _ _ => EmptyString
  end.

(** The record a scan makes of the entry [n] met under the relative
    path [p]. *)
Definition snapshot_record (E : Externals) (p : path) (n : node) : FileInfo :=
  {| Path := p; Size := info_Size (node_info n);
     ModTime := info_ModTime (node_info n);
     Checksum := node_digest E n;
     IsDir := info_IsDir (node_info n) |}.

(** Every directory that the walk of [root] reaches can be listed. *)
Definition all_listable (f : gmap path node) (root : path) : Prop :=
  ∀ rel mode mtime,
    reachable f root rel = true →
    f !! (root ++ rel) = Some (Directory mode mtime) →
    can_read mode = true.

(** Away from the paths [P], nothing that exists is changed or removed,
    and whatever is new is a directory. *)
Definition confined (P : path → Prop) : relation World :=
  λ w w', ∀ k, ¬ P k →
    (∀ n, fs w !! k = Some n → fs w' !! k = Some n)
    ∧ (∀ n, fs w' !! k = Some n →
            fs w !! k = Some n ∨ ∃ mode mtime, n = Directory mode mtime).

(** Nothing that exists is changed or removed, and whatever is new is a
    directory. *)
Definition adds_directories : relation World := confined (λ _, False).

(** The same, outside the tree below [root]. *)
Definition keeps_outside (root : path) : relation World :=
  confined (λ k, root `prefix_of` k).

(** An entry that does not exist at [k] still does not exist. *)
Definition stays_absent (k : path) : relation World :=
  λ w w', fs w !! k = None → fs w' !! k = None.

(** ** Concrete inputs for the examples *)

(** Stand-ins for the external primitives: the digest of the examples is
    the content itself, a pattern matches a name when it is [*] or the
    name, and the stamp is the number of seconds. *)
Definition example_externals : Externals :=
  {| md5_hex := String.string_of_list_byte;
     path_Match := λ pattern name,
       bool_decide (pattern = "*") || bool_decide (pattern = name);
     format_stamp := λ now, pretty (now / Time.Second) |}.

Definition bytes_of (s : string) : list Byte.byte := String.list_byte_of_string s.

Definition example_config (mode : string) (dryRun : bool) : SyncConfig :=
  {| SourceDir := ["src"]; TargetDir := ["dst"]; SyncMode := mode;
     CheckInterval := 30 * Time.Second; MaxFileSize := 100;
     IncludePattern := EmptyString; ExcludePattern := EmptyString;
     DryRun := dryRun; Verbose := true |}.

(** Source holds [a.txt] only, target holds [b.txt] only. *)
Definition snapshot_a : gmap path FileInfo :=
  {[ ["a.txt"] := file_record ["a.txt"] 3 (10 * Time.Second) "aaa" ]}.
Definition snapshot_b : gmap path FileInfo :=
  {[ ["b.txt"] := file_record ["b.txt"] 3 (10 * Time.Second) "bbb" ]}.

(** One file [f.txt] on each side, with the given times and digests. *)
Definition snapshot_f (mtime : Z) (sum : string) : gmap path FileInfo :=
  {[ ["f.txt"] := file_record ["f.txt"] 3 mtime sum ]}.

(** Worlds: the clock stands at 100 s, the umask is 022, directories
    have mode 0755 and files 0644. *)
Definition example_world (f : gmap path node) (input : string) : World :=
  {| fs := f; stdin := input; clock := 100 * Time.Second; umask := 18; out := [] |}.

Definition example_tool (mode : string) (dryRun : bool) : FileSyncTool :=
  NewFileSyncTool (example_config mode dryRun).

(** [src/d/a.txt] to be copied into an empty [dst]. *)
Definition nested_fs : gmap path node :=
  list_to_map
    [ ([], Directory 493 0); (["src"], Directory 493 0); (["dst"], Directory 493 0);
      (["src"; "d"], Directory 493 0);
      (["src"; "d"; "a.txt"], File 420 5 (bytes_of "hello")) ].

(** [c.txt] on both sides, contents differing, the source half a second
    newer. *)
Definition conflict_fs : gmap path node :=
  list_to_map
    [ ([], Directory 493 0); (["src"], Directory 493 0); (["dst"], Directory 493 0);
      (["src"; "c.txt"], File 420 10500000000 (bytes_of "new"));
      (["dst"; "c.txt"], File 420 10000000000 (bytes_of "old")) ].

(** A source tree with a directory that cannot be listed, between two
    readable files. *)
Definition locked_fs : gmap path node :=
  list_to_map
    [ ([], Directory 493 0); (["src"], Directory 493 0); (["dst"], Directory 493 0);
      (["src"; "a.txt"], File 420 5 (bytes_of "aaa"));
      (["src"; "locked"], Directory 0 5);
      (["src"; "z.txt"], File 420 5 (bytes_of "zzz")) ].

(** A source file that cannot be opened for reading. *)
Definition secret_fs : gmap path node :=
  list_to_map
    [ ([], Directory 493 0); (["src"], Directory 493 0); (["dst"], Directory 493 0);
      (["src"; "secret.txt"], File 0 5 (bytes_of "xxx")) ].

(** No source directory at all. *)
Definition no_source_fs : gmap path node :=
  list_to_map
    [ ([], Directory 493 0); (["dst"], Directory 493 0);
      (["dst"; "b.txt"], File 420 5 (bytes_of "bbb")) ].

(** A source file of 5 bytes under a ceiling of 4 bytes. *)
Definition small_limit_tool : FileSyncTool :=
  NewFileSyncTool
    {| SourceDir := ["src"]; TargetDir := ["dst"]; SyncMode := "unidirectional";
       CheckInterval := 30 * Time.Second; MaxFileSize := 4;
       IncludePattern := EmptyString; ExcludePattern := EmptyString;
       DryRun := false; Verbose := true |}.

Definition big_file_fs : gmap path node :=
  list_to_map
    [ ([], Directory 493 0); (["src"], Directory 493 0); (["dst"], Directory 493 0);
      (["src"; "big.txt"], File 420 5 (bytes_of "hello"));
      (["src"; "ok.txt"], File 420 5 (bytes_of "hi")) ].

(** One line typed at the prompt. *)
Definition typed (answer : string) : string :=
  answer +:+ String "010"%char EmptyString.

(** [-source src -target dst -mode bidirectional -continuous -verbose] *)
Definition continuous_flags : Flags :=
  {| flag_source := ["src"]; flag_target := ["dst"]; flag_mode := "bidirectional";
     flag_interval := 30 * Time.Second; flag_maxsize := 100;
     flag_include := EmptyString; flag_exclude := EmptyString; flag_dryrun := false;
     flag_continuous := true; flag_verbose := true; flag_help := false |}.

(** [d] is a directory in the source and a file in the target. *)
Definition snapshot_dir : gmap path FileInfo :=
  {[ ["d"] := {| Path := ["d"]; Size := dir_size; ModTime := 20 * Time.Second;
                 Checksum := EmptyString; IsDir := true |} ]}.
Definition snapshot_notdir : gmap path FileInfo :=
  {[ ["d"] := file_record ["d"] 3 (10 * Time.Second) "ddd" ]}.

(** [-include * -exclude skip.txt], unidirectional and live. *)
Definition pattern_tool : FileSyncTool :=
  NewFileSyncTool
    {| SourceDir := ["src"]; TargetDir := ["dst"]; SyncMode := "unidirectional";
       CheckInterval := 30 * Time.Second; MaxFileSize := 100;
       IncludePattern := "*"; ExcludePattern := "skip.txt";
       DryRun := false; Verbose := true |}.

Definition pattern_fs : gmap path node :=
  list_to_map
    [ ([], Directory 493 0); (["src"], Directory 493 0); (["dst"], Directory 493 0);
      (["src"; "keep.txt"], File 420 5 (bytes_of "keep"));
      (["src"; "skip.txt"], File 420 5 (bytes_of "skip")) ].

(** The source root is a regular file; the target holds [b.txt]. *)
Definition file_root_fs : gmap path node :=
  list_to_map
    [ ([], Directory 493 0); (["src"], File 420 5 (bytes_of "data"));
      (["dst"], Directory 493 0);
      (["dst"; "b.txt"], File 420 5 (bytes_of "bbb")) ].

(** [c.txt] on both sides, the same bytes, mode and time. *)
Definition synced_fs : gmap path node :=
  list_to_map
    [ ([], Directory 493 0); (["src"], Directory 493 0); (["dst"], Directory 493 0);
      (["src"; "c.txt"], File 420 10500000000 (bytes_of "new"));
      (["dst"; "c.txt"], File 420 10500000000 (bytes_of "new")) ].

(** The target holds a directory [old] with one file in it; the source
    holds nothing. *)
Definition stale_tree_fs : gmap path node :=
  list_to_map
    [ ([], Directory 493 0); (["src"], Directory 493 0); (["dst"], Directory 493 0);
      (["dst"; "old"], Directory 493 0);
      (["dst"; "old"; "x.txt"], File 420 5 (bytes_of "x")) ].

(** No target directory yet. *)
Definition no_target_fs : gmap path node :=
  list_to_map
    [ ([], Directory 493 0); (["src"], Directory 493 0);
      (["src"; "a.txt"], File 420 5 (bytes_of "aaa")) ].

(** [-source src -target dst -dryrun] *)
Definition dry_flags : Flags :=
  {| flag_source := ["src"]; flag_target := ["dst"]; flag_mode := "unidirectional";
     flag_interval := 30 * Time.Second; flag_maxsize := 100;
     flag_include := EmptyString; flag_exclude := EmptyString; flag_dryrun := true;
     flag_continuous := false; flag_verbose := false; flag_help := false |}.

(** ** Properties of the difference computation *)

Section Compare.
Implicit Types (sourceFiles targetFiles : gmap path FileInfo) (p : path).

Lemma range_append_filter {V} (m : gmap path V) sel :
  range_append m sel = (filter (λ kv, sel kv.1 kv.2 = true) (map_to_list m)).*1.
Proof.
  unfold range_append.
  assert (∀ l acc,
    foldl (λ acc kv, if sel kv.1 kv.2 then acc ++ [kv.1] else acc) acc l
    = acc ++ (filter (λ kv : path * V, sel kv.1 kv.2 = true) l).*1) as Hgen.
  { induction l as [|[k v] l IH]; intros acc; simpl.
    - by rewrite app_nil_r.
    - rewrite IH, filter_cons. simpl.
      destruct (sel k v) eqn:Hs; case_decide; try congruence; simpl.
      all: try by rewrite <- app_assoc. }
  by rewrite Hgen.
Qed.

Lemma elem_of_range_append {V} (m : gmap path V) sel p :
  p ∈ range_append m sel ↔ ∃ v, m !! p = Some v ∧ sel p v = true.
Proof.
  rewrite range_append_filter, list_elem_of_fmap. split.
  - intros [[k v] [-> [Hs Hin]%list_elem_of_filter]]. simpl in *.
    exists v. by rewrite <- elem_of_map_to_list.
  - intros (v & Hm & Hs). exists (p, v). split; [done|].
    apply list_elem_of_filter. split; [done|]. by apply elem_of_map_to_list.
Qed.

Lemma NoDup_range_append {V} (m : gmap path V) sel :
  NoDup (range_append m sel).
Proof.
  rewrite range_append_filter.
  eapply sublist_NoDup; [apply (NoDup_fst_map_to_list m)|].
  apply fmap_sublist, sublist_filter.
Qed.

Lemma elem_of_toCopy mode sourceFiles targetFiles p :
  p ∈ plan_toCopy (compare_snapshots mode sourceFiles targetFiles)
  ↔ ∃ s, sourceFiles !! p = Some s ∧ copy_selected targetFiles p s = true.
Proof. apply elem_of_range_append. Qed.

Lemma elem_of_toDelete mode sourceFiles targetFiles p :
  p ∈ plan_toDelete (compare_snapshots mode sourceFiles targetFiles)
  ↔ ∃ t, targetFiles !! p = Some t ∧ delete_selected sourceFiles p t = true.
Proof. apply elem_of_range_append. Qed.

Lemma elem_of_conflicts mode sourceFiles targetFiles p :
  p ∈ plan_conflicts (compare_snapshots mode sourceFiles targetFiles)
  ↔ mode = "bidirectional"
    ∧ ∃ s, sourceFiles !! p = Some s ∧ conflict_selected targetFiles p s = true.
Proof.
  unfold plan_conflicts, compare_snapshots. simpl. case_bool_decide as Hm.
  - rewrite elem_of_range_append. split; [by intros ? | by intros [_ ?]].
  - split; [by intros ?%elem_of_nil | by intros [? _]].
Qed.

End Compare.

Section ComparePlan.
Implicit Types (sourceFiles targetFiles : gmap path FileInfo) (p : path).

(** C1, as the code has it: in either mode, [toDelete] holds exactly
    the paths present in the target snapshot and absent from the
    source snapshot. *)
Theorem toDelete_is_target_only mode sourceFiles targetFiles p :
  p ∈ plan_toDelete (compare_snapshots mode sourceFiles targetFiles)
  ↔ is_Some (targetFiles !! p) ∧ sourceFiles !! p = None.
Proof.
  rewrite elem_of_toDelete. unfold delete_selected. split.
  - intros (t & Ht & Hsel). split; [by eexists|].
    by destruct (sourceFiles !! p).
  - intros [[t Ht] Hs]. exists t. by rewrite Hs.
Qed.

(** C1, counterexample: in bidirectional mode the path [b.txt],
    present in the target snapshot only, is placed in [toDelete]. *)
Lemma toDelete_bidirectional_example :
  snapshot_a !! ["b.txt"] = None
  ∧ is_Some (snapshot_b !! ["b.txt"])
  ∧ plan_toDelete (compare_snapshots "bidirectional" snapshot_a snapshot_b)
    = [["b.txt"]].
Proof. split; [done|]. split; [by eexists|]. by vm_compute. Qed.

(** C2, as the code has it: two files with equal digests are never a
    conflict, and are copied exactly when their sizes differ or the
    source is more than a second newer than the target. *)
Theorem equal_digests_classification mode sourceFiles targetFiles p s t :
  sourceFiles !! p = Some s →
  targetFiles !! p = Some t →
  IsDir s = false →
  IsDir t = false →
  Checksum s = Checksum t →
  (p ∉ plan_conflicts (compare_snapshots mode sourceFiles targetFiles))
  ∧ (p ∈ plan_toCopy (compare_snapshots mode sourceFiles targetFiles)
     ↔ Size s ≠ Size t ∨ ModTime t + Time.Second < ModTime s).
Proof.
  intros Hs Ht Hds Hdt Hsum. split.
  - rewrite elem_of_conflicts. intros (_ & s' & Hs' & Hsel).
    unfold conflict_selected in Hsel. rewrite Ht in Hsel.
    assert (s' = s) as -> by congruence.
    rewrite Hds, Hdt in Hsel. simpl in Hsel.
    rewrite bool_decide_eq_false_2 in Hsel by (intros Hne; by apply Hne).
    done.
  - rewrite elem_of_toCopy. unfold copy_selected, Time.After, Time.Add.
    rewrite Ht. split.
    + intros (s' & Hs' & Hsel). assert (s' = s) as -> by congruence.
      rewrite Hds, Hdt in Hsel. simpl in Hsel.
      rewrite (bool_decide_eq_false_2 (Checksum s ≠ Checksum t)) in Hsel
        by (intros Hne; by apply Hne).
      rewrite orb_false_r in Hsel.
      apply orb_true_iff in Hsel as [Hsz%bool_decide_eq_true|Hlt%Z.ltb_lt];
        [by left | by right].
    + intros Hor. exists s. split; [done|]. rewrite Hds, Hdt. simpl.
      destruct Hor as [Hsz|Hlt].
      * by rewrite (bool_decide_eq_true_2 _ Hsz).
      * apply Z.ltb_lt in Hlt. rewrite Hlt. by rewrite orb_true_r.
Qed.

Lemma equal_digests_classification_witness :
  (["f.txt"] ∉ plan_conflicts
      (compare_snapshots "bidirectional"
         (snapshot_f (12 * Time.Second) "same") (snapshot_f (10 * Time.Second) "same")))
  ∧ (["f.txt"] ∈ plan_toCopy
      (compare_snapshots "bidirectional"
         (snapshot_f (12 * Time.Second) "same") (snapshot_f (10 * Time.Second) "same"))
     ↔ 3 ≠ 3 ∨ 10 * Time.Second + Time.Second < 12 * Time.Second).
Proof.
  apply (equal_digests_classification "bidirectional"
           (snapshot_f (12 * Time.Second) "same") (snapshot_f (10 * Time.Second) "same")
           ["f.txt"]
           (file_record ["f.txt"] 3 (12 * Time.Second) "same")
           (file_record ["f.txt"] 3 (10 * Time.Second) "same"));
    reflexivity.
Defined.

(** C2, counterexample: two files of equal size and equal digest, the
    source two seconds newer, and the path is placed in [toCopy]. *)
Lemma equal_digests_copied_example :
  Checksum (file_record ["f.txt"] 3 (12 * Time.Second) "same")
  = Checksum (file_record ["f.txt"] 3 (10 * Time.Second) "same")
  ∧ plan_toCopy
      (compare_snapshots "unidirectional"
         (snapshot_f (12 * Time.Second) "same") (snapshot_f (10 * Time.Second) "same"))
    = [["f.txt"]].
Proof. split; [done|]. by vm_compute. Qed.

(** C3, as the code has it: in bidirectional mode two files with
    different digests are a conflict exactly when the source is newer
    than the target by less than one second. *)
Theorem conflict_window sourceFiles targetFiles p s t :
  sourceFiles !! p = Some s →
  targetFiles !! p = Some t →
  IsDir s = false →
  IsDir t = false →
  Checksum s ≠ Checksum t →
  p ∈ plan_conflicts (compare_snapshots "bidirectional" sourceFiles targetFiles)
  ↔ 0 < ModTime s - ModTime t < Time.Second.
Proof.
  intros Hs Ht Hds Hdt Hsum.
  rewrite elem_of_conflicts. unfold conflict_selected, Time.After, Time.Add.
  rewrite Ht. split.
  - intros (_ & s' & Hs' & Hsel). assert (s' = s) as -> by congruence.
    rewrite Hds, Hdt in Hsel. simpl in Hsel.
    rewrite (bool_decide_eq_true_2 _ Hsum) in Hsel. simpl in Hsel.
    apply andb_true_iff in Hsel as [H1%Z.ltb_lt H2%Z.ltb_lt]. lia.
  - intros [H1 H2]. split; [done|]. exists s. split; [done|].
    rewrite Hds, Hdt. simpl. rewrite (bool_decide_eq_true_2 _ Hsum). simpl.
    apply andb_true_iff. split; apply Z.ltb_lt; lia.
Qed.

Lemma conflict_window_witness :
  ["f.txt"] ∈ plan_conflicts
      (compare_snapshots "bidirectional"
         (snapshot_f 10500000000 "new") (snapshot_f 10000000000 "old"))
  ↔ 0 < 10500000000 - 10000000000 < Time.Second.
Proof.
  apply (conflict_window
           (snapshot_f 10500000000 "new") (snapshot_f 10000000000 "old")
           ["f.txt"]
           (file_record ["f.txt"] 3 10500000000 "new")
           (file_record ["f.txt"] 3 10000000000 "old"));
    [reflexivity | reflexivity | reflexivity | reflexivity | discriminate].
Defined.

(** C3, counterexample: differing digests, the target half a second
    newer than the source, bidirectional mode, and the path is not a
    conflict. *)
Lemma conflict_half_second_example :
  Z.abs (10000000000 - 10500000000) ≤ Time.Second
  ∧ plan_conflicts
      (compare_snapshots "bidirectional"
         (snapshot_f 10000000000 "new") (snapshot_f 10500000000 "old"))
    = [].
Proof. split; [by vm_compute|]. by vm_compute. Qed.


End ComparePlan.

(** ** Reasoning about effectful functions *)

Ltac munfold :=
  unfold mbind, M_bind, mret, M_ret, get_fs, put_fs, Now, get_umask, emit, when in *.

#[global] Instance grows_preorder : PreOrder grows.
Proof.
  split; [by intros w k n|].
  intros w1 w2 w3 H1 H2 k n Hk. by apply H2, H1.
Qed.

#[global] Instance keeps_preorder T : PreOrder (keeps T).
Proof.
  split; [by intros w k n|].
  intros w1 w2 w3 H1 H2 k n Hk Hne. apply H2; [|done]. by apply H1.
Qed.

#[global] Instance same_stdin_preorder : PreOrder same_stdin.
Proof.
  split; [done|].
  intros w1 w2 w3 H1 H2. unfold same_stdin in *. congruence.
Qed.

Section Preserves.
Context (R : relation World) `{!PreOrder R}.

Lemma preserves_ret {A} (x : A) : preserves R (mret x).
Proof. intros w. simpl. reflexivity. Qed.

Lemma preserves_bind {A B} (m : M A) (f : A → M B) :
  preserves R m → (∀ x, preserves R (f x)) → preserves R (m ≫= f).
Proof.
  intros Hm Hf w. unfold mbind, M_bind. specialize (Hm w).
  destruct (m w) as [x w']. simpl in Hm. etrans; [exact Hm|]. apply Hf.
Qed.

Lemma preserves_reader {A} (m : M A) :
  (∀ w, (m w).2 = w) → preserves R m.
Proof. intros Hm w. rewrite Hm. reflexivity. Qed.

Lemma preserves_when b c : preserves R c → preserves R (when b c).
Proof. intros Hc. destruct b; [done|]. apply preserves_ret. Qed.

Lemma preserves_for_each {A} (l : list A) body :
  (∀ x, preserves R (body x)) → preserves R (for_each l body).
Proof.
  intros Hb. induction l as [|x l IH]; simpl; [apply preserves_ret|].
  apply preserves_bind; [apply Hb|]. intros _. apply IH.
Qed.

End Preserves.

Lemma preserves_weaken {A} (R R' : relation World) (m : M A) :
  (∀ w w', R w w' → R' w w') → preserves R m → preserves R' m.
Proof. intros HR Hm w. apply HR, Hm. Qed.

Lemma grows_keeps T w w' : grows w w' → keeps T w w'.
Proof. intros H k n Hk _. by apply H. Qed.

Lemma for_each_cons {A} (x : A) l body w :
  for_each (x :: l) body w = for_each l body (body x w).2.
Proof. simpl. unfold mbind, M_bind. by destruct (body x w). Qed.

(** ** The system calls *)

Ltac prim := intros w; munfold; repeat case_match; simplify_eq/=; try done.

Lemma Lstat_world p w : (Lstat p w).2 = w.
Proof. unfold Lstat. munfold. by case_match. Qed.

Lemma Open_world p w : (Open p w).2 = w.
Proof. unfold Open. munfold. by repeat case_match. Qed.

Lemma read_all_world p w : (read_all p w).2 = w.
Proof. unfold read_all. munfold. by repeat case_match. Qed.

Lemma emit_keeps T o : preserves (keeps T) (emit o).
Proof. by intros w k n. Qed.

Lemma emit_stdin o : preserves same_stdin (emit o).
Proof. done. Qed.

Lemma Mkdir_grows p perm : preserves grows (Mkdir p perm).
Proof.
  unfold Mkdir. prim. intros k n Hk. simpl.
  rewrite lookup_insert_ne; [done|]. intros ->. congruence.
Qed.

Lemma mkdirAll_grows depth p perm : preserves grows (mkdirAll depth p perm).
Proof.
  revert p. induction depth as [|depth IH]; intros p; simpl.
  - apply (preserves_bind grows); [by apply (preserves_reader grows)|]. intros f.
    repeat case_match; try apply (preserves_ret grows). apply Mkdir_grows.
  - apply (preserves_bind grows); [by apply (preserves_reader grows)|]. intros f.
    repeat case_match; try apply (preserves_ret grows).
    apply (preserves_bind grows); [apply IH|].
    intros [e|]; [apply (preserves_ret grows)|]. apply Mkdir_grows.
Qed.

Lemma MkdirAll_grows p perm : preserves grows (MkdirAll p perm).
Proof. apply mkdirAll_grows. Qed.

Lemma Create_keeps p : preserves (keeps p) (Create p).
Proof. unfold Create. prim; intros k n Hk Hne; simpl; by rewrite lookup_insert_ne. Qed.

Lemma io_Copy_keeps dst src : preserves (keeps dst) (io_Copy dst src).
Proof.
  unfold io_Copy, read_all. prim; intros k n Hk Hne; simpl; by rewrite lookup_insert_ne.
Qed.

Lemma Chmod_keeps p mode : preserves (keeps p) (Chmod p mode).
Proof. unfold Chmod. prim; intros k n Hk Hne; simpl; by rewrite lookup_insert_ne. Qed.

Lemma Chtimes_keeps p a m : preserves (keeps p) (Chtimes p a m).
Proof. unfold Chtimes. prim; intros k n Hk Hne; simpl; by rewrite lookup_insert_ne. Qed.

Lemma Remove_keeps p : preserves (keeps p) (Remove p).
Proof. unfold Remove. prim; intros k n Hk Hne; simpl; by rewrite lookup_delete_ne. Qed.

Lemma MkdirAll_existing p perm w mode mtime :
  fs w !! p = Some (Directory mode mtime) → MkdirAll p perm w = (None, w).
Proof.
  intros H. unfold MkdirAll. destruct (length p); simpl; munfold; by rewrite H.
Qed.

Lemma Open_file p w mode mtime data :
  fs w !! p = Some (File mode mtime data) → can_read mode = true → Open p w = (None, w).
Proof. intros H Hr. unfold Open. munfold. by rewrite H, Hr. Qed.

Lemma Create_directory p w mode mtime :
  fs w !! p = Some (Directory mode mtime) → Create p w = (Some EISDIR, w).
Proof. intros H. unfold Create. munfold. by rewrite H. Qed.

Lemma Create_existing p w mode mtime data :
  fs w !! p = Some (File mode mtime data) → can_write mode = true →
  Create p w = (None, with_fs (<[p := File mode (clock w) []]> (fs w)) w).
Proof. intros H Hw. unfold Create. munfold. by rewrite H, Hw. Qed.

Lemma Create_new p w :
  fs w !! p = None → parent_check (fs w) p = None →
  Create p w
  = (None, with_fs (<[p := File (N.ldiff perm666 (umask w)) (clock w) []]> (fs w)) w).
Proof. intros H Hp. unfold Create. munfold. by rewrite H, Hp. Qed.

Lemma io_Copy_file dst src w mode mtime data mode' mtime' data' :
  fs w !! src = Some (File mode mtime data) →
  fs w !! dst = Some (File mode' mtime' data') →
  io_Copy dst src w = (None, with_fs (<[dst := File mode' (clock w) data]> (fs w)) w).
Proof. intros Hs Hd. unfold io_Copy, read_all. munfold. by rewrite Hs, Hd. Qed.

Lemma Stat_some p w n : fs w !! p = Some n → Stat p w = (Ok (node_info n), w).
Proof. intros H. unfold Stat, Lstat. munfold. by rewrite H. Qed.

Lemma Chmod_file p w mode mode' mtime data :
  fs w !! p = Some (File mode' mtime data) →
  Chmod p mode w = (None, with_fs (<[p := File mode mtime data]> (fs w)) w).
Proof. intros H. unfold Chmod. munfold. by rewrite H. Qed.

Lemma Chtimes_file p w atime mtime mode mtime' data :
  fs w !! p = Some (File mode mtime' data) →
  Chtimes p atime mtime w = (None, with_fs (<[p := File mode mtime data]> (fs w)) w).
Proof. intros H. unfold Chtimes. munfold. by rewrite H. Qed.

Lemma parent_check_ok (f : gmap path node) p dmode dmtime :
  p ≠ [] → f !! Dir p = Some (Directory dmode dmtime) → can_write dmode = true →
  parent_check f p = None.
Proof. intros Hp HD Hw. unfold parent_check. destruct p; [done|]. by rewrite HD, Hw. Qed.

Lemma Rename_file old new w mode mtime data :
  fs w !! old = Some (File mode mtime data) →
  old ≠ new →
  parent_check (fs w) old = None →
  parent_check (fs w) new = None →
  (∀ m t, fs w !! new ≠ Some (Directory m t)) →
  Rename old new w
  = (None, with_fs (<[new := File mode mtime data]> (delete old (fs w))) w).
Proof.
  intros Hold Hne Hpo Hpn Hnd. unfold Rename. munfold.
  rewrite Hold, bool_decide_eq_false_2, Hpo, Hpn by done.
  destruct (fs w !! new) as [[| m t]|] eqn:Hnew; try done.
  by destruct (Hnd m t).
Qed.

Lemma elem_of_entries (f : gmap path node) dir c :
  c ∈ entries f dir ↔ is_Some (f !! c) ∧ c ≠ [] ∧ Dir c = dir.
Proof.
  unfold entries. rewrite list_elem_of_filter, list_elem_of_fmap. split.
  - intros [[? ?] ([k n] & -> & Hk%elem_of_map_to_list)]. simpl in *. eauto.
  - intros ([n Hn] & ? & ?). split; [done|]. exists (c, n). split; [done|].
    by apply elem_of_map_to_list.
Qed.

Lemma Remove_nonempty p w mode mtime c :
  fs w !! p = Some (Directory mode mtime) →
  is_Some (fs w !! c) → c ≠ [] → Dir c = p →
  (Remove p w).2 = w.
Proof.
  intros Hp Hc Hne Hdir. unfold Remove. munfold. rewrite Hp.
  destruct (parent_check (fs w) p); [done|].
  destruct (entries (fs w) p) as [|c' l] eqn:He; [|done].
  assert (c ∈ entries (fs w) p) as Hin by (by apply elem_of_entries).
  rewrite He in Hin. by apply elem_of_nil in Hin.
Qed.

(** ** Paths *)

Lemma string_app_id (s t : string) : s +:+ t = s → t = EmptyString.
Proof. induction s as [|c s IH]; simpl; [done|]. intros [= H]. by apply IH. Qed.

Lemma add_suffix_nonempty (p : path) (suffix : string) :
  p ≠ [] → add_suffix p suffix = removelast p ++ [List.last p EmptyString +:+ suffix].
Proof. by destruct p. Qed.

Lemma Dir_add_suffix (root p : path) (suffix : string) :
  p ≠ [] → Dir (Join root (add_suffix p suffix)) = Dir (Join root p).
Proof.
  intros Hp. unfold Dir, Join. rewrite add_suffix_nonempty by done.
  rewrite app_assoc, removelast_last. by rewrite removelast_app.
Qed.

Lemma add_suffix_ne (root root' p : path) (suffix : string) :
  p ≠ [] → suffix ≠ EmptyString →
  Join root (add_suffix p suffix) ≠ Join root' p.
Proof.
  intros Hp Hs Heq. unfold Join in Heq. rewrite add_suffix_nonempty in Heq by done.
  rewrite (app_removelast_last EmptyString Hp) in Heq at 3.
  rewrite !app_assoc in Heq. apply app_inj_tail in Heq as [_ Heq].
  by apply string_app_id in Heq.
Qed.

Lemma Dir_ne (p : path) : p ≠ [] → Dir p ≠ p.
Proof.
  intros Hp Heq. apply (f_equal length) in Heq. unfold Dir in Heq.
  destruct p using rev_ind; [done|].
  rewrite removelast_last, length_app in Heq. simpl in Heq. lia.
Qed.

(** ** The scan *)

Lemma filter_none {A} (P : A → Prop) `{∀ x, Decision (P x)} (l : list A) :
  (∀ y, y ∈ l → ¬ P y) → filter P l = [].
Proof.
  induction l as [|y l IH]; intros HP; [done|].
  rewrite filter_cons, decide_False by (apply HP; by left).
  apply IH. intros z Hz. apply HP. by right.
Qed.

Lemma filter_unique {A} (P : A → Prop) `{∀ x, Decision (P x)} (l : list A) x :
  NoDup l → x ∈ l → (∀ y, y ∈ l → P y ↔ y = x) → filter P l = [x].
Proof.
  induction 1 as [|y l Hy Hnd IH]; intros Hx HP; [by apply elem_of_nil in Hx|].
  rewrite filter_cons. destruct (decide (P y)) as [HPy|HPy].
  - apply HP in HPy as ->; [|by left]. f_equal.
    apply filter_none. intros z Hz HPz.
    apply HP in HPz as ->; [done|by right].
  - apply IH.
    + apply elem_of_cons in Hx as [->|Hx]; [|done].
      exfalso. apply HPy, HP; [by left|done].
    + intros z Hz. apply HP. by right.
Qed.

Lemma walk_events_missing (f : gmap path node) root :
  f !! root = None → walk_events f root = [VisitErr root ENOENT].
Proof. intros H. unfold walk_events. by rewrite H. Qed.

Lemma walk_events_unlistable (f : gmap path node) root mode mtime :
  f !! root = Some (Directory mode mtime) → can_read mode = false →
  walk_events f root = [VisitErr root EACCES].
Proof.
  intros Hroot Hmode. unfold walk_events. rewrite Hroot.
  rewrite (filter_unique _ _ root).
  - cbn. unfold walk_event_of. by rewrite Hroot, Hmode.
  - apply NoDup_fst_map_to_list.
  - apply list_elem_of_fmap. exists (root, Directory mode mtime). split; [done|].
    by apply elem_of_map_to_list.
  - intros k _. split.
    + intros [[rel ->] Hreach]. unfold Rel in Hreach. rewrite drop_app_length in Hreach.
      destruct rel as [|c rel]; [by rewrite app_nil_r|].
      unfold reachable in Hreach. simpl in Hreach.
      rewrite app_nil_r in Hreach. unfold listable in Hreach at 1.
      by rewrite Hroot, Hmode in Hreach.
    + intros ->. split; [done|]. unfold Rel. by rewrite drop_all.
Qed.

Lemma walk_events_root_error (f : gmap path node) root e :
  root_error f root = Some e → walk_events f root = [VisitErr root e].
Proof.
  unfold root_error.
  destruct (f !! root) as [[mode mtime data|mode mtime]|] eqn:Hroot; [done| |].
  - destruct (can_read mode) eqn:Hmode; [done|]. intros [= <-].
    by eapply walk_events_unlistable.
  - intros [= <-]. by apply walk_events_missing.
Qed.

Lemma walk_events_elem (f : gmap path node) root ev :
  is_Some (f !! root) →
  ev ∈ walk_events f root →
  ∃ k, ev = walk_event_of f k ∧ is_Some (f !! k) ∧ root `prefix_of` k
       ∧ reachable f root (Rel root k) = true.
Proof.
  intros [n Hn]. unfold walk_events. rewrite Hn.
  intros (k & -> & Hk)%list_elem_of_fmap. exists k. split; [done|].
  rewrite merge_sort_Permutation in Hk.
  apply list_elem_of_filter in Hk as [[Hpre Hreach] Hk].
  apply list_elem_of_fmap in Hk as ([k' n'] & -> & Hk).
  apply elem_of_map_to_list in Hk. simpl. eauto.
Qed.

Lemma walk_visit_info (f : gmap path node) k p info :
  walk_event_of f k = Visit p info →
  p = k ∧ ∃ n, f !! k = Some n ∧ info = node_info n.
Proof.
  unfold walk_event_of. destruct (f !! k) as [[mode mtime data|mode mtime]|]; [| |done].
  - intros [= <- <-]. eauto.
  - destruct (can_read mode); [|done]. intros [= <- <-]. eauto.
Qed.


Section Scan.
Variable E : Externals.
Variable fst : FileSyncTool.

Lemma CalculateChecksum_world filePath w :
  (CalculateChecksum E fst filePath w).2 = w.
Proof.
  unfold CalculateChecksum, Open, read_all. munfold.
  repeat case_match; simplify_eq/=; done.
Qed.

Lemma scan_visit_cases dirPath files p info w :
  ∃ files', scan_visit E fst dirPath files (Visit p info) w = ((files', None), w)
    ∧ (files' = files
       ∨ (p ≠ dirPath ∧ shouldIncludeFile E fst (Rel dirPath p) info = true
          ∧ ∃ sum, files' = <[Rel dirPath p :=
               {| Path := Rel dirPath p; Size := info_Size info;
                  ModTime := info_ModTime info; Checksum := sum;
                  IsDir := info_IsDir info |}]> files)).
Proof.
  unfold scan_visit. case_bool_decide as Hp; [by eauto|].
  destruct (shouldIncludeFile E fst (Rel dirPath p) info) eqn:Hinc; simpl; [|by eauto].
  munfold.
  destruct (negb (info_IsDir info) && (info_Size info <=? MaxFileSize (Config fst))).
  - pose proof (CalculateChecksum_world p w) as Hw.
    destruct (CalculateChecksum E fst p w) as [[sum err] w']. simpl in Hw. subst w'.
    destruct err; eexists; (split; [done|]); right; eauto.
  - eexists; (split; [done|]); right; eauto.
Qed.

Lemma scan_visit_world dirPath files ev w :
  (scan_visit E fst dirPath files ev w).2 = w.
Proof.
  destruct ev as [p info|p err]; [|done].
  by destruct (scan_visit_cases dirPath files p info w) as (files' & -> & _).
Qed.

Lemma scan_walk_cons dirPath ev evs files w :
  scan_walk E fst dirPath (ev :: evs) files w
  = match scan_visit E fst dirPath files ev w with
    | ((files', Some e), w') => ((files', Some e), w')
    | ((files', None), w') => scan_walk E fst dirPath evs files' w'
    end.
Proof.
  simpl. munfold.
  by destruct (scan_visit E fst dirPath files ev w) as [[files' [e|]] w'].
Qed.

Lemma scan_walk_world dirPath evs files w :
  (scan_walk E fst dirPath evs files w).2 = w.
Proof.
  revert files. induction evs as [|ev evs IH]; intros files; [done|].
  rewrite scan_walk_cons.
  destruct (scan_visit E fst dirPath files ev w) as [[files' err] w'] eqn:Hv.
  apply (f_equal snd) in Hv. rewrite scan_visit_world in Hv. simpl in Hv. subst w'.
  destruct err; [done|]. apply IH.
Qed.

Lemma ScanDirectory_world dirPath w :
  (ScanDirectory E fst dirPath w).2 = w.
Proof. unfold ScanDirectory. munfold. apply scan_walk_world. Qed.

Lemma scan_walk_app dirPath pre evs files w :
  Forall is_Visit pre →
  scan_walk E fst dirPath (pre ++ evs) files w
  = scan_walk E fst dirPath evs (scan_walk E fst dirPath pre files w).1.1 w.
Proof.
  intros Hpre. revert files.
  induction Hpre as [|ev pre Hev _ IH]; intros files; [done|].
  destruct ev as [p info|]; [|done]. rewrite <- app_comm_cons, !scan_walk_cons.
  destruct (scan_visit_cases dirPath files p info w) as (files' & -> & _).
  apply IH.
Qed.

Lemma scan_walk_sound (f : gmap path node) root evs files w :
  is_Some (f !! root) →
  (∀ ev, ev ∈ evs → ev ∈ walk_events f root) →
  (∀ p fi, files !! p = Some fi → recorded E fst f root p fi) →
  ∀ p fi, (scan_walk E fst root evs files w).1.1 !! p = Some fi →
          recorded E fst f root p fi.
Proof.
  intros Hroot. revert files.
  induction evs as [|ev evs IH]; intros files Hevs Hfiles; [done|].
  rewrite scan_walk_cons. destruct ev as [k info|k e]; [|done].
  destruct (scan_visit_cases root files k info w) as (files' & -> & Hcases).
  apply IH; [intros ev Hev; apply Hevs; by right|].
  destruct Hcases as [->|(Hk & Hinc & sum & ->)]; [done|].
  intros p fi. rewrite lookup_insert. case_decide as Hp; [|by apply Hfiles].
  intros [= <-]. subst p.
  destruct (walk_events_elem f root (Visit k info) Hroot)
    as (k' & Hev & Hsome & Hpre & Hreach); [apply Hevs; by left|].
  symmetry in Hev. apply walk_visit_info in Hev as (<- & n & Hn & ->).
  destruct Hpre as [rel ->]. unfold Rel in *. rewrite drop_app_length in *.
  assert (rel ≠ []) by (intros ->; by rewrite app_nil_r in Hk).
  split; [done|]. split; [done|]. exists n. done.
Qed.

Lemma ScanDirectory_sound root w p fi :
  (ScanDirectory E fst root w).1.1 !! p = Some fi → recorded E fst (fs w) root p fi.
Proof.
  unfold ScanDirectory. munfold.
  destruct (fs w !! root) as [n|] eqn:Hroot.
  - apply scan_walk_sound; [by eexists|done|done].
  - by rewrite walk_events_missing.
Qed.

Lemma ScanDirectory_root_error root w e :
  root_error (fs w) root = Some e →
  ScanDirectory E fst root w = ((∅, Some e), w).
Proof.
  intros He. unfold ScanDirectory. munfold.
  by rewrite (walk_events_root_error _ _ _ He).
Qed.

Lemma CompareDirectories_cases w :
  ∃ plan w', CompareDirectories E fst w = (plan, w') ∧ fs w' = fs w
    ∧ (plan = ([], [], [])
       ∨ ∃ sourceFiles targetFiles,
           (ScanDirectory E fst (SourceDir (Config fst)) w).1 = (sourceFiles, None)
           ∧ (ScanDirectory E fst (TargetDir (Config fst)) w).1 = (targetFiles, None)
           ∧ plan = compare_snapshots (SyncMode (Config fst)) sourceFiles targetFiles).
Proof.
  unfold CompareDirectories. unfold mbind, M_bind.
  pose proof (ScanDirectory_world (SourceDir (Config fst)) w) as Hw1.
  destruct (ScanDirectory E fst (SourceDir (Config fst)) w) as [[sf [e|]] w1];
    simpl in Hw1; subst w1.
  { eexists _, _. split; [done|]. split; [done|]. by left. }
  pose proof (ScanDirectory_world (TargetDir (Config fst)) w) as Hw2.
  destruct (ScanDirectory E fst (TargetDir (Config fst)) w) as [[tf [e|]] w2];
    simpl in Hw2; subst w2.
  { eexists _, _. split; [done|]. split; [done|]. by left. }
  eexists _, _. split; [done|]. split; [done|]. right. by eexists _, _.
Qed.

(** C7, as the code has it: a file larger than [MaxFileSize] is left out
    of the snapshot altogether.  The function handed to the walk records
    nothing for it and returns no error, and the finished snapshot has
    no entry under its path. *)
Theorem oversized_file_is_omitted root w p mode mtime data :
  fs w !! Join root p = Some (File mode mtime data) →
  MaxFileSize (Config fst) < Z.of_nat (length data) →
  (∀ files,
     scan_visit E fst root files
       (Visit (Join root p) (node_info (File mode mtime data))) w
     = ((files, None), w))
  ∧ (ScanDirectory E fst root w).1.1 !! p = None.
Proof.
  intros Hfile Hsize. split.
  - intros files. unfold scan_visit. case_bool_decide; [done|].
    unfold shouldIncludeFile. simpl.
    apply Z.ltb_lt in Hsize. rewrite Hsize. by repeat case_match.
  - destruct (_ !! p) as [fi|] eqn:Hfi; [|done]. exfalso.
    apply ScanDirectory_sound in Hfi as (_ & _ & n & Hn & Hinc & _).
    unfold Join in Hfile. rewrite Hfile in Hn. injection Hn as <-.
    unfold shouldIncludeFile in Hinc. simpl in Hinc.
    apply Z.ltb_lt in Hsize. rewrite Hsize in Hinc. by repeat case_match.
Qed.

Lemma CalculateChecksum_unreadable p w mode mtime data :
  fs w !! p = Some (File mode mtime data) → can_read mode = false →
  CalculateChecksum E fst p w = ((EmptyString, Some EACCES), w).
Proof.
  intros Hfile Hread. unfold CalculateChecksum, Open. munfold.
  by rewrite Hfile, Hread.
Qed.

Lemma shouldIncludeFile_size relPath info :
  info_IsDir info = false → shouldIncludeFile E fst relPath info = true →
  (info_Size info <=? MaxFileSize (Config fst)) = true.
Proof.
  intros Hd. unfold shouldIncludeFile. rewrite Hd.
  repeat case_match; try done. intros _. apply Z.leb_le. by apply Z.ltb_ge.
Qed.

(** C6, as the code has it: when the walk hands the function an error
    for an entry, the scan stops there and returns that error, with only
    the records made for the entries before it.  Only a file whose bytes
    cannot be read for the digest is passed over without failing: it is
    recorded, with an empty digest, and the scan goes on. *)
Theorem entry_error_stops_scan dirPath w :
  (∀ pre k e rest files,
     Forall is_Visit pre →
     scan_walk E fst dirPath (pre ++ VisitErr k e :: rest) files w
     = (((scan_walk E fst dirPath pre files w).1.1, Some e), w))
  ∧ (∀ p mode mtime data files,
       p ≠ dirPath →
       fs w !! p = Some (File mode mtime data) →
       can_read mode = false →
       shouldIncludeFile E fst (Rel dirPath p) (node_info (File mode mtime data)) = true →
       scan_visit E fst dirPath files (Visit p (node_info (File mode mtime data))) w
       = ((<[Rel dirPath p :=
               {| Path := Rel dirPath p; Size := Z.of_nat (length data);
                  ModTime := mtime; Checksum := EmptyString; IsDir := false |}]> files,
           None), w)).
Proof.
  split.
  - intros pre k e rest files Hpre.
    rewrite scan_walk_app by done. by rewrite scan_walk_cons.
  - intros p mode mtime data files Hp Hfile Hread Hinc. unfold scan_visit.
    rewrite bool_decide_eq_false_2 by done. rewrite Hinc.
    rewrite (shouldIncludeFile_size (Rel dirPath p)
               (node_info (File mode mtime data)) eq_refl Hinc). simpl.
    unfold mbind, M_bind.
    by rewrite (CalculateChecksum_unreadable _ _ _ _ _ Hfile Hread).
Qed.

(** C5, as the code has it: when the source root is missing or cannot be
    listed, the cycle logs the scan failure, makes no plan, touches
    nothing, prints its closing message and returns [nil]. *)
Theorem unreadable_source_cycle_completes w e :
  root_error (fs w) (SourceDir (Config fst)) = Some e →
  RunSync E fst w
  = (None,
     with_out (out w ++ [PrintStart (SourceDir (Config fst)) (TargetDir (Config fst));
                         PrintMode (SyncMode (Config fst));
                         LogScanSourceFailed e;
                         PrintDetected 0 0 0;
                         PrintDone]) w).
Proof.
  intros He. unfold RunSync, CompareDirectories. munfold.
  rewrite (ScanDirectory_root_error _ _ e) by done.
  cbn. unfold with_out. cbn. rewrite <- !app_assoc. done.
Qed.

End Scan.

Lemma oversized_file_is_omitted_witness :
  (∀ files,
     scan_visit example_externals small_limit_tool ["src"] files
       (Visit (Join ["src"] ["big.txt"]) (node_info (File 420 5 (bytes_of "hello"))))
       (example_world big_file_fs EmptyString)
     = ((files, None), example_world big_file_fs EmptyString))
  ∧ (ScanDirectory example_externals small_limit_tool ["src"]
       (example_world big_file_fs EmptyString)).1.1 !! ["big.txt"] = None.
Proof.
  apply (oversized_file_is_omitted example_externals small_limit_tool ["src"]
           (example_world big_file_fs EmptyString) ["big.txt"] 420 5 (bytes_of "hello")).
  - reflexivity.
  - reflexivity.
Defined.

(** C7, counterexample: [big.txt] passes the (empty) patterns and is one
    byte over the ceiling; the scan succeeds and the snapshot holds
    [ok.txt] but no record at all for [big.txt]. *)
Lemma oversized_file_dropped_example :
  big_file_fs !! ["src"; "big.txt"] = Some (File 420 5 (bytes_of "hello"))
  ∧ (ScanDirectory example_externals small_limit_tool ["src"]
       (example_world big_file_fs EmptyString)).1
    = ({[ ["ok.txt"] := file_record ["ok.txt"] 2 5 "hi" ]}, None).
Proof. split; by vm_compute. Qed.

Lemma entry_error_stops_scan_witness :
  scan_walk example_externals (example_tool "unidirectional" false) ["src"]
    ([Visit ["src"] (node_info (Directory 493 0));
      Visit ["src"; "a.txt"] (node_info (File 420 5 (bytes_of "aaa")))]
     ++ VisitErr ["src"; "locked"] EACCES
        :: [Visit ["src"; "z.txt"] (node_info (File 420 5 (bytes_of "zzz")))])
    ∅ (example_world locked_fs EmptyString)
  = (((scan_walk example_externals (example_tool "unidirectional" false) ["src"]
         [Visit ["src"] (node_info (Directory 493 0));
          Visit ["src"; "a.txt"] (node_info (File 420 5 (bytes_of "aaa")))]
         ∅ (example_world locked_fs EmptyString)).1.1,
      Some EACCES),
     example_world locked_fs EmptyString)
  ∧ scan_visit example_externals (example_tool "unidirectional" false) ["src"] ∅
      (Visit ["src"; "secret.txt"] (node_info (File 0 5 (bytes_of "xxx"))))
      (example_world secret_fs EmptyString)
    = (({[ ["secret.txt"] := file_record ["secret.txt"] 3 5 EmptyString ]}, None),
       example_world secret_fs EmptyString).
Proof.
  split.
  - apply (proj1 (entry_error_stops_scan example_externals
                    (example_tool "unidirectional" false) ["src"]
                    (example_world locked_fs EmptyString))).
    repeat constructor.
  - apply (proj2 (entry_error_stops_scan example_externals
                    (example_tool "unidirectional" false) ["src"]
                    (example_world secret_fs EmptyString))
             ["src"; "secret.txt"] 0%N 5 (bytes_of "xxx") ∅).
    + discriminate.
    + reflexivity.
    + reflexivity.
    + reflexivity.
Defined.

(** C6, counterexample: the root [src] can be listed, one directory
    below it cannot; the scan fails with that entry's error, and the
    readable file [z.txt] that comes after it is missing from the map
    the scan returns. *)
Lemma unlistable_entry_fails_scan_example :
  root_error locked_fs ["src"] = None
  ∧ locked_fs !! ["src"; "z.txt"] = Some (File 420 5 (bytes_of "zzz"))
  ∧ (ScanDirectory example_externals (example_tool "unidirectional" false) ["src"]
       (example_world locked_fs EmptyString)).1
    = ({[ ["a.txt"] := file_record ["a.txt"] 3 5 "aaa" ]}, Some EACCES).
Proof. split; [|split]; by vm_compute. Qed.

Lemma unreadable_source_cycle_completes_witness :
  RunSync example_externals (example_tool "unidirectional" false)
    (example_world no_source_fs EmptyString)
  = (None,
     with_out (out (example_world no_source_fs EmptyString)
               ++ [PrintStart ["src"] ["dst"];
                   PrintMode "unidirectional";
                   LogScanSourceFailed ENOENT;
                   PrintDetected 0 0 0;
                   PrintDone]) (example_world no_source_fs EmptyString)).
Proof.
  apply (unreadable_source_cycle_completes example_externals
           (example_tool "unidirectional" false) (example_world no_source_fs EmptyString) ENOENT).
  reflexivity.
Defined.

(** C5, counterexample: the source root does not exist, and the cycle
    runs to its end, prints its closing message and returns [nil] to
    its caller. *)
Lemma missing_source_reports_success_example :
  root_error no_source_fs ["src"] = Some ENOENT
  ∧ (RunSync example_externals (example_tool "unidirectional" false)
       (example_world no_source_fs EmptyString)).1 = None
  ∧ out (RunSync example_externals (example_tool "unidirectional" false)
           (example_world no_source_fs EmptyString)).2
    = [PrintStart ["src"] ["dst"]; PrintMode "unidirectional";
       LogScanSourceFailed ENOENT; PrintDetected 0 0 0; PrintDone].
Proof. split; [|split]; by vm_compute. Qed.

(** ** Copies and deletions *)

Section Frames.
Variable fst : FileSyncTool.
Local Abbreviation cfg := (Config fst).

Lemma CopyFile_keeps q :
  preserves (keeps (Join (TargetDir cfg) q)) (CopyFile fst q).
Proof.
  unfold CopyFile. set (T := Join (TargetDir cfg) q).
  apply (preserves_bind (keeps T)).
  { eapply preserves_weaken; [apply grows_keeps|apply MkdirAll_grows]. }
  intros [e|]; [apply (preserves_ret (keeps T))|].
  destruct (DryRun cfg).
  { apply (preserves_bind (keeps T)); [apply (preserves_when (keeps T)), emit_keeps|].
    intros _. apply (preserves_ret (keeps T)). }
  apply (preserves_bind (keeps T)); [apply (preserves_reader (keeps T)), Open_world|].
  intros [e|]; [apply (preserves_ret (keeps T))|].
  apply (preserves_bind (keeps T)); [apply Create_keeps|].
  intros [e|]; [apply (preserves_ret (keeps T))|].
  apply (preserves_bind (keeps T)); [apply io_Copy_keeps|].
  intros [e|]; [apply (preserves_ret (keeps T))|].
  apply (preserves_bind (keeps T)); [apply (preserves_reader (keeps T)), Lstat_world|].
  intros [info|e].
  - apply (preserves_bind (keeps T)).
    { apply (preserves_bind (keeps T)); [apply Chmod_keeps|]. intros _.
      apply (preserves_bind (keeps T)); [by apply (preserves_reader (keeps T))|].
      intros now.
      apply (preserves_bind (keeps T)); [apply Chtimes_keeps|]. intros _.
      apply (preserves_ret (keeps T)). }
    intros _.
    apply (preserves_bind (keeps T)); [apply (preserves_when (keeps T)), emit_keeps|].
    intros _. apply (preserves_ret (keeps T)).
  - apply (preserves_bind (keeps T)); [apply (preserves_ret (keeps T))|].
    intros _.
    apply (preserves_bind (keeps T)); [apply (preserves_when (keeps T)), emit_keeps|].
    intros _. apply (preserves_ret (keeps T)).
Qed.

Lemma DeleteFile_keeps q :
  preserves (keeps (Join (TargetDir cfg) q)) (DeleteFile fst q).
Proof.
  unfold DeleteFile. set (T := Join (TargetDir cfg) q).
  destruct (DryRun cfg).
  { apply (preserves_bind (keeps T)); [apply (preserves_when (keeps T)), emit_keeps|].
    intros _. apply (preserves_ret (keeps T)). }
  apply (preserves_bind (keeps T)); [apply Remove_keeps|].
  intros [e|]; [apply (preserves_ret (keeps T))|].
  apply (preserves_bind (keeps T)); [apply (preserves_when (keeps T)), emit_keeps|].
  intros _. apply (preserves_ret (keeps T)).
Qed.


(** A directory that holds an entry survives every deletion. *)
Lemma DeleteFile_parent_kept q w dir mode mtime c :
  fs w !! dir = Some (Directory mode mtime) →
  is_Some (fs w !! c) → c ≠ [] → Dir c = dir →
  fs (DeleteFile fst q w).2 !! dir = Some (Directory mode mtime).
Proof.
  intros Hd Hc Hne Hdir.
  destruct (decide (dir = Join (TargetDir cfg) q)) as [->|Hneq];
    [|by apply DeleteFile_keeps].
  unfold DeleteFile. munfold. destruct (DryRun cfg).
  { destruct (Verbose cfg); done. }
  pose proof (Remove_nonempty _ w _ _ c Hd Hc Hne Hdir) as Hr.
  destruct (Remove _ w) as [err w1]. simpl in Hr. subst w1.
  destruct err; [done|]. destruct (Verbose cfg); done.
Qed.

(** A live copy of a readable source file, onto a writable target file
    or into a writable directory, succeeds and leaves at the target the
    very node of the source: bytes, mode and modification time. *)
Lemma CopyFile_overwrites p w smode smtime sdata dmode dmtime :
  let S := Join (SourceDir cfg) p in
  let T := Join (TargetDir cfg) p in
  DryRun cfg = false →
  S ≠ T →
  fs w !! S = Some (File smode smtime sdata) →
  can_read smode = true →
  fs w !! Dir T = Some (Directory dmode dmtime) →
  (∃ tmode tmtime tdata,
      fs w !! T = Some (File tmode tmtime tdata) ∧ can_write tmode = true)
  ∨ (fs w !! T = None ∧ T ≠ [] ∧ can_write dmode = true) →
  (CopyFile fst p w).1 = None
  ∧ fs (CopyFile fst p w).2 = <[T := File smode smtime sdata]> (fs w).
Proof.
  intros S T Hdry Hne HS Hread HD HT. unfold CopyFile. fold S T. clearbody S T.
  unfold mbind, M_bind.
  rewrite (MkdirAll_existing _ _ _ _ _ HD), Hdry.
  rewrite (Open_file _ _ _ _ _ HS Hread).
  assert (∃ w1 tmode, Create T w = (None, w1)
                      ∧ fs w1 = <[T := File tmode (clock w) []]> (fs w)
                      ∧ clock w1 = clock w) as (w1 & tmode & -> & Hw1 & Hc1).
  { destruct HT as [(tmode & tmtime & tdata & HT & Hw)|(HT & HTne & Hw)].
    - rewrite (Create_existing _ _ _ _ _ HT Hw). by eexists _, _.
    - rewrite (Create_new _ _ HT); [by eexists _, _|]. by eapply parent_check_ok. }
  assert (fs w1 !! S = Some (File smode smtime sdata)) as HS1
    by (by rewrite Hw1, lookup_insert_ne).
  assert (fs w1 !! T = Some (File tmode (clock w) [])) as HT1
    by (by rewrite Hw1, lookup_insert_eq).
  rewrite (io_Copy_file _ _ _ _ _ _ _ _ _ HS1 HT1).
  set (w2 := with_fs _ w1).
  assert (fs w2 !! S = Some (File smode smtime sdata)) as HS2
    by (unfold w2; simpl; by rewrite lookup_insert_ne).
  rewrite (Stat_some _ _ _ HS2).
  assert (fs w2 !! T = Some (File tmode (clock w1) sdata)) as HT2
    by (unfold w2; simpl; by rewrite lookup_insert_eq).
  rewrite (Chmod_file _ _ _ _ _ _ HT2).
  set (w3 := with_fs _ w2).
  assert (fs w3 !! T = Some (File smode (clock w1) sdata)) as HT3
    by (unfold w3; simpl; by rewrite lookup_insert_eq).
  unfold Now. rewrite (Chtimes_file _ _ _ _ _ _ _ HT3).
  unfold mret, M_ret.
  assert (∀ b o (w' : World), fs (when b (emit o) w').2 = fs w') as Hemit
    by (by intros [] ??).
  match goal with |- context [when ?b (emit ?o) ?w'] =>
    pose proof (Hemit b o w') as Hfs; destruct (when b (emit o) w') as [[] w4] end.
  simpl in *. split; [done|]. rewrite Hfs. unfold w3, w2. simpl.
  by rewrite Hw1, !insert_insert_eq.
Qed.

End Frames.

(** The copy and deletion loops, seen from one path [p] that exists on
    both sides, when neither root lies inside the other. *)
Section Overwrite.
Variable fst : FileSyncTool.
Variable p : path.
Local Abbreviation cfg := (Config fst).
Local Abbreviation S := (Join (SourceDir cfg) p).
Local Abbreviation T := (Join (TargetDir cfg) p).
Hypothesis Hst : ¬ SourceDir cfg `prefix_of` TargetDir cfg.
Hypothesis Hts : ¬ TargetDir cfg `prefix_of` SourceDir cfg.
Hypothesis Hp : p ≠ [].


Lemma target_inj q : q ≠ p → Join (TargetDir cfg) q ≠ T.
Proof. intros Hq Heq. by apply app_inv_head in Heq. Qed.

Lemma T_nonempty : T ≠ [].
Proof. unfold Join. intros [_ ?]%app_eq_nil. done. Qed.







End Overwrite.

Lemma RunSync_phases E fst w :
  RunSync E fst w
  = (conflicts ← sync_until_conflicts E fst;
     run_conflicts E fst conflicts;; emit PrintDone;; mret None) w.
Proof.
  unfold RunSync, sync_until_conflicts. unfold mbind, M_bind.
  destruct (emit _ w) as [[] w1].
  destruct (emit _ w1) as [[] w2].
  destruct (CompareDirectories E fst w2) as [[[toCopy toDelete] conflicts] w3].
  destruct (emit _ w3) as [[] w4].
  destruct (run_deletes fst toDelete w4) as [[] w5].
  destruct (run_copies fst toCopy w5) as [[] w6].
  done.
Qed.




(** ** Conflict resolution *)

(** X21: [ResolveConflict] alone, with the choice [both], in a live run:
    the target file it finds is found again, unchanged, under the name
    with the [.conflict_] stamp, and the original target path holds the
    bytes of the source file, which is still in place. *)
Lemma keep_both_keeps_both E fst w p smode smtime sdata tmode tmtime tdata dmode dmtime :
  let S := Join (SourceDir (Config fst)) p in
  let T := Join (TargetDir (Config fst)) p in
  let renamed := Join (TargetDir (Config fst))
                   (add_suffix p (".conflict_" +:+ format_stamp E (clock w))) in
  DryRun (Config fst) = false →
  p ≠ [] →
  SourceDir (Config fst) ≠ TargetDir (Config fst) →
  fs w !! S = Some (File smode smtime sdata) →
  can_read smode = true →
  fs w !! T = Some (File tmode tmtime tdata) →
  fs w !! Dir T = Some (Directory dmode dmtime) →
  can_write dmode = true →
  (∀ m t, fs w !! renamed ≠ Some (Directory m t)) →
  (ResolveConflict E fst p "both" w).1 = None
  ∧ fs (ResolveConflict E fst p "both" w).2 !! renamed = Some (File tmode tmtime tdata)
  ∧ fs (ResolveConflict E fst p "both" w).2 !! T = Some (File smode smtime sdata)
  ∧ fs (ResolveConflict E fst p "both" w).2 !! S = Some (File smode smtime sdata).
Proof.
  intros S T renamed Hdry Hp Hroots HS Hread HT HD Hwrite Hnodir.
  assert (".conflict_" +:+ format_stamp E (clock w) ≠ EmptyString) as Hsuffix by done.
  assert (renamed ≠ T) as HrT by (by apply add_suffix_ne).
  assert (renamed ≠ S) as HrS by (by apply add_suffix_ne).
  assert (S ≠ T) as HST by (intros Heq; by apply app_inv_tail in Heq).
  assert (Dir renamed = Dir T) as HDr by (by apply Dir_add_suffix).
  assert (T ≠ []) as HTne by (unfold T, Join; by intros [_ ?]%app_eq_nil).
  assert (Dir T ≠ T) as HDT by (by apply Dir_ne).
  assert (renamed ≠ []) as Hrne.
  { intros Hnil. unfold renamed, Join in Hnil.
    apply app_eq_nil in Hnil as [_ Hnil]. rewrite add_suffix_nonempty in Hnil by done.
    by apply app_eq_nil in Hnil as [_ ?]. }
  assert (Dir T ≠ renamed) as HDren by (rewrite <- HDr; by apply Dir_ne).
  assert (parent_check (fs w) T = None) as HpT by (by eapply parent_check_ok).
  assert (parent_check (fs w) renamed = None) as Hpr
    by (eapply parent_check_ok; [done|by rewrite HDr|done]).
  assert (∃ w', ResolveConflict E fst p "both" w = (None, w')
            ∧ fs w' = <[T := File smode smtime sdata]>
                        (<[renamed := File tmode tmtime tdata]> (delete T (fs w))))
    as (w' & -> & Hfs).
  { unfold ResolveConflict. fold S T.
    rewrite !bool_decide_eq_false_2 by done. rewrite bool_decide_eq_true_2 by done.
    unfold mbind, M_bind, Now. fold renamed. rewrite Hdry.
    rewrite (Rename_file _ _ _ _ _ _ HT (not_eq_sym HrT) HpT Hpr Hnodir).
    set (w1 := with_fs _ w).
    destruct (CopyFile_overwrites fst p w1 smode smtime sdata dmode dmtime)
      as [Herr Hfs]; try done.
    - unfold w1. simpl. by rewrite lookup_insert_ne, lookup_delete_ne.
    - unfold w1. simpl. by rewrite lookup_insert_ne, lookup_delete_ne.
    - right. split; [|done]. unfold w1. simpl.
      by rewrite lookup_insert_ne, lookup_delete_eq.
    - destruct (CopyFile fst p w1) as [err w2]. simpl in Herr, Hfs. subst err.
      destruct (Verbose (Config fst)); eexists; (split; [done|]); simpl; by rewrite Hfs. }
  simpl. rewrite Hfs. split; [done|]. split; [|split].
  - by rewrite lookup_insert_ne, lookup_insert_eq.
  - by rewrite lookup_insert_eq.
  - by rewrite !lookup_insert_ne, lookup_delete_ne.
Qed.

Lemma keep_both_keeps_both_example :
  (ResolveConflict example_externals (example_tool "bidirectional" false)
     ["c.txt"] "both" (example_world conflict_fs EmptyString)).1 = None
  ∧ fs (ResolveConflict example_externals (example_tool "bidirectional" false)
          ["c.txt"] "both" (example_world conflict_fs EmptyString)).2
      !! ["dst"; "c.txt.conflict_100"]
    = Some (File 420 10000000000 (bytes_of "old"))
  ∧ fs (ResolveConflict example_externals (example_tool "bidirectional" false)
          ["c.txt"] "both" (example_world conflict_fs EmptyString)).2
      !! ["dst"; "c.txt"]
    = Some (File 420 10500000000 (bytes_of "new"))
  ∧ fs (ResolveConflict example_externals (example_tool "bidirectional" false)
          ["c.txt"] "both" (example_world conflict_fs EmptyString)).2
      !! ["src"; "c.txt"]
    = Some (File 420 10500000000 (bytes_of "new")).
Proof.
  apply (keep_both_keeps_both example_externals (example_tool "bidirectional" false)
           (example_world conflict_fs EmptyString) ["c.txt"]
           420 10500000000 (bytes_of "new") 420 10000000000 (bytes_of "old") 493 0).
  - reflexivity.
  - discriminate.
  - discriminate.
  - reflexivity.
  - reflexivity.
  - reflexivity.
  - reflexivity.
  - reflexivity.
  - intros m t. vm_compute. discriminate.
Defined.

(** C9, the code at the failing input: a live bidirectional cycle over
    the conflicting [c.txt], answered with [both].  The copy loop has
    replaced the target file by the source's bytes before the conflict
    is resolved, so the file renamed to [c.txt.conflict_100] holds the
    source's bytes as well, and the bytes the target held when the
    cycle began are nowhere in the tree. *)
Theorem keep_both_loses_target_bytes :
  (sync_until_conflicts example_externals (example_tool "bidirectional" false)
     (example_world conflict_fs (typed "both"))).1 = [["c.txt"]]
  ∧ fs (example_world conflict_fs (typed "both")) !! ["dst"; "c.txt"]
    = Some (File 420 10000000000 (bytes_of "old"))
  ∧ (RunSync example_externals (example_tool "bidirectional" false)
       (example_world conflict_fs (typed "both"))).1 = None
  ∧ fs (RunSync example_externals (example_tool "bidirectional" false)
          (example_world conflict_fs (typed "both"))).2
    = list_to_map
        [ ([], Directory 493 0); (["src"], Directory 493 0); (["dst"], Directory 493 0);
          (["src"; "c.txt"], File 420 10500000000 (bytes_of "new"));
          (["dst"; "c.txt"], File 420 10500000000 (bytes_of "new"));
          (["dst"; "c.txt.conflict_100"], File 420 10500000000 (bytes_of "new")) ].
Proof. repeat split; by vm_compute. Qed.

(** ** Dry runs *)

(** C4, the code at the failing input: a dry run over a source that
    holds [d/a.txt] and an empty target creates the directory [dst/d],
    so that the target's snapshot after the run differs from the one
    before it. *)
Theorem dry_run_creates_directory :
  DryRun (Config (example_tool "unidirectional" true)) = true
  ∧ fs (example_world nested_fs EmptyString) !! ["dst"; "d"] = None
  ∧ fs (RunSync example_externals (example_tool "unidirectional" true)
          (example_world nested_fs EmptyString)).2 !! ["dst"; "d"]
    = Some (Directory 493 (100 * Time.Second))
  ∧ (ScanDirectory example_externals (example_tool "unidirectional" true) ["dst"]
       (example_world nested_fs EmptyString)).1
    = (∅, None)
  ∧ (ScanDirectory example_externals (example_tool "unidirectional" true) ["dst"]
       (RunSync example_externals (example_tool "unidirectional" true)
          (example_world nested_fs EmptyString)).2).1
    = ({[ ["d"] := {| Path := ["d"]; Size := dir_size; ModTime := 100 * Time.Second;
                      Checksum := EmptyString; IsDir := true |} ]}, None).
Proof. repeat split; by vm_compute. Qed.

(** ** Standard input *)

Ltac stdin_prim := intros w; munfold; repeat case_match; simplify_eq/=; done.

Lemma Mkdir_stdin p perm : preserves same_stdin (Mkdir p perm).
Proof. unfold Mkdir. stdin_prim. Qed.

Lemma mkdirAll_stdin depth p perm : preserves same_stdin (mkdirAll depth p perm).
Proof.
  revert p. induction depth as [|depth IH]; intros p; simpl.
  - apply (preserves_bind same_stdin); [by apply (preserves_reader same_stdin)|].
    intros f.
    repeat case_match; try apply (preserves_ret same_stdin). apply Mkdir_stdin.
  - apply (preserves_bind same_stdin); [by apply (preserves_reader same_stdin)|].
    intros f.
    repeat case_match; try apply (preserves_ret same_stdin).
    apply (preserves_bind same_stdin); [apply IH|].
    intros [e|]; [apply (preserves_ret same_stdin)|]. apply Mkdir_stdin.
Qed.

Lemma Create_stdin p : preserves same_stdin (Create p).
Proof. unfold Create, parent_check. stdin_prim. Qed.

Lemma io_Copy_stdin dst src : preserves same_stdin (io_Copy dst src).
Proof. unfold io_Copy, read_all. stdin_prim. Qed.

Lemma Chmod_stdin p mode : preserves same_stdin (Chmod p mode).
Proof. unfold Chmod. stdin_prim. Qed.

Lemma Chtimes_stdin p a m : preserves same_stdin (Chtimes p a m).
Proof. unfold Chtimes. stdin_prim. Qed.

Lemma Remove_stdin p : preserves same_stdin (Remove p).
Proof. unfold Remove. stdin_prim. Qed.

Lemma Rename_stdin old new : preserves same_stdin (Rename old new).
Proof. unfold Rename. stdin_prim. Qed.

Ltac stdin_step :=
  first
    [ apply (preserves_ret same_stdin)
    | apply (preserves_when same_stdin), emit_stdin
    | apply emit_stdin
    | apply mkdirAll_stdin | apply Create_stdin | apply io_Copy_stdin
    | apply Chmod_stdin | apply Chtimes_stdin | apply Remove_stdin | apply Rename_stdin
    | apply (preserves_reader same_stdin), Open_world
    | apply (preserves_reader same_stdin), Lstat_world
    | by apply (preserves_reader same_stdin)
    | apply (preserves_bind same_stdin); [|intros ?]
    | match goal with |- preserves _ (match ?x with _ => _ end) => destruct x end
    | match goal with |- preserves _ (if ?x then _ else _) => destruct x end ].

Lemma iter_drop_line n s :
  Nat.iter n drop_line (drop_line s) = Nat.iter (S n) drop_line s.
Proof. induction n as [|n IH]; [done|]. simpl in *. by rewrite IH. Qed.

Lemma for_each_reads_lines {A} (l : list A) (body : A → M unit) w :
  (∀ x w', stdin (body x w').2 = drop_line (stdin w')) →
  stdin (for_each l body w).2 = Nat.iter (length l) drop_line (stdin w).
Proof.
  intros Hbody. revert w. induction l as [|q l IH]; intros w; [done|].
  rewrite for_each_cons, IH. cbn [length]. rewrite <- iter_drop_line. f_equal.
  apply Hbody.
Qed.

Section Stdin.
Variable E : Externals.
Variable fst : FileSyncTool.

Lemma CopyFile_stdin q : preserves same_stdin (CopyFile fst q).
Proof. unfold CopyFile, MkdirAll, Stat. repeat stdin_step. Qed.

Lemma DeleteFile_stdin q : preserves same_stdin (DeleteFile fst q).
Proof. unfold DeleteFile. repeat stdin_step. Qed.

Lemma ResolveConflict_stdin q choice :
  preserves same_stdin (ResolveConflict E fst q choice).
Proof.
  unfold ResolveConflict. repeat case_bool_decide; try apply CopyFile_stdin.
  - repeat stdin_step.
  - apply (preserves_bind same_stdin); [by apply (preserves_reader same_stdin)|].
    intros now. destruct (DryRun (Config fst)); [repeat stdin_step|].
    apply (preserves_bind same_stdin); [apply Rename_stdin|].
    intros [e|]; [stdin_step|].
    apply (preserves_bind same_stdin); [apply CopyFile_stdin|].
    intros [e|]; repeat stdin_step.
  - stdin_step.
Qed.

Lemma CompareDirectories_stdin : preserves same_stdin (CompareDirectories E fst).
Proof.
  unfold CompareDirectories.
  apply (preserves_bind same_stdin);
    [apply (preserves_reader same_stdin), ScanDirectory_world|].
  intros [sf [e|]]; [repeat stdin_step|].
  apply (preserves_bind same_stdin);
    [apply (preserves_reader same_stdin), ScanDirectory_world|].
  intros [tf [e|]]; repeat stdin_step.
Qed.

Lemma run_deletes_stdin l : preserves same_stdin (run_deletes fst l).
Proof.
  apply (preserves_for_each same_stdin). intros q.
  apply (preserves_bind same_stdin); [apply DeleteFile_stdin|]. intros [e|]; stdin_step.
Qed.

Lemma run_copies_stdin l : preserves same_stdin (run_copies fst l).
Proof.
  apply (preserves_for_each same_stdin). intros q.
  apply (preserves_bind same_stdin); [apply CopyFile_stdin|]. intros [e|]; stdin_step.
Qed.

Lemma sync_until_conflicts_stdin : preserves same_stdin (sync_until_conflicts E fst).
Proof.
  unfold sync_until_conflicts.
  apply (preserves_bind same_stdin); [apply emit_stdin|]. intros _.
  apply (preserves_bind same_stdin); [apply emit_stdin|]. intros _.
  apply (preserves_bind same_stdin); [apply CompareDirectories_stdin|].
  intros [[toCopy toDelete] conflicts].
  apply (preserves_bind same_stdin); [apply emit_stdin|]. intros _.
  apply (preserves_bind same_stdin); [apply run_deletes_stdin|]. intros _.
  apply (preserves_bind same_stdin); [apply run_copies_stdin|]. intros _.
  apply (preserves_ret same_stdin).
Qed.

(** The conflict loop reads one line for each conflict. *)
Lemma run_conflicts_stdin l w :
  stdin (run_conflicts E fst l w).2 = Nat.iter (length l) drop_line (stdin w).
Proof.
  unfold run_conflicts. destruct l as [|q l]; [done|].
  unfold mbind at 1, M_bind at 1.
  change (emit PrintConflictsHeader w)
    with (tt, with_out (out w ++ [PrintConflictsHeader]) w).
  cbv beta iota.
  rewrite for_each_reads_lines; [done|].
  intros file w'. unfold mbind, M_bind, emit, ReadString. simpl.
  unfold drop_line. destruct (read_line (stdin w')) as [line rest]. simpl.
  match goal with |- context [ResolveConflict E fst file ?c ?w0] =>
    pose proof (ResolveConflict_stdin file c w0) as Hr;
    destruct (ResolveConflict E fst file c w0) as [[e|] w1] end; done.
Qed.

Lemma RunSync_returns_nil w : (RunSync E fst w).1 = None.
Proof.
  rewrite RunSync_phases. unfold mbind, M_bind.
  destruct (sync_until_conflicts E fst w) as [conflicts w1].
  destruct (run_conflicts E fst conflicts w1) as [[] w2]. done.
Qed.

Lemma RunSync_stdin w :
  stdin (RunSync E fst w).2
  = Nat.iter (length (sync_until_conflicts E fst w).1) drop_line (stdin w).
Proof.
  rewrite RunSync_phases. unfold mbind, M_bind.
  pose proof (sync_until_conflicts_stdin w) as Hs.
  destruct (sync_until_conflicts E fst w) as [conflicts w1]. simpl in *.
  pose proof (run_conflicts_stdin conflicts w1) as Hc.
  destruct (run_conflicts E fst conflicts w1) as [[] w2]. simpl in *.
  by rewrite Hc, Hs.
Qed.

End Stdin.

(** C8, as the code has it: there is no strategy to select and no check
    at start-up.  With [-continuous], directories that exist and a
    positive interval, [main] runs a cycle and enters the ticker loop;
    and every cycle, whoever starts it, reads one line of standard
    input for each conflict it finds. *)
Theorem continuous_run_is_interactive E fl ticks w :
  flag_help fl = false →
  flag_source fl ≠ [] →
  flag_target fl ≠ [] →
  is_Some (fs w !! flag_source fl) →
  is_Some (fs w !! flag_target fl) →
  flag_continuous fl = true →
  0 < flag_interval fl →
  (main E fl ticks w).1 = Looping
  ∧ ∀ fst w', stdin (RunSync E fst w').2
      = Nat.iter (length (sync_until_conflicts E fst w').1) drop_line (stdin w').
Proof.
  intros Hhelp Hsrc Htgt [ns Hns] [nt Hnt] Hcont Hint.
  split; [|intros; apply RunSync_stdin].
  unfold main. rewrite Hhelp, !bool_decide_eq_false_2 by done. simpl.
  unfold mbind, M_bind.
  rewrite (Stat_some _ _ _ Hns). simpl.
  rewrite (Stat_some _ _ _ Hnt). simpl. unfold mret at 1, M_ret at 1.
  match goal with |- context [RunSync E ?t ?w0] =>
    pose proof (RunSync_returns_nil E t w0) as Hnil;
    destruct (RunSync E t w0) as [err w1] end.
  simpl in Hnil. subst err. rewrite Hcont.
  unfold ContinuousSync. unfold mbind, M_bind. simpl.
  apply Z.leb_gt in Hint. rewrite Hint.
  by destruct (ticker_loop _ _ _ _).
Qed.

Lemma continuous_run_is_interactive_witness :
  (main example_externals continuous_flags 1
     (example_world conflict_fs (typed "both"))).1 = Looping
  ∧ ∀ fst w', stdin (RunSync example_externals fst w').2
      = Nat.iter (length (sync_until_conflicts example_externals fst w').1)
          drop_line (stdin w').
Proof.
  apply (continuous_run_is_interactive example_externals continuous_flags 1
           (example_world conflict_fs (typed "both"))).
  - reflexivity.
  - discriminate.
  - discriminate.
  - eexists. reflexivity.
  - eexists. reflexivity.
  - reflexivity.
  - reflexivity.
Defined.

(** C8, counterexample: a continuous, bidirectional configuration is not
    refused; [main] runs its cycle, which prompts for the conflict on
    [c.txt] and consumes the line typed, and goes on into the ticker
    loop.  A cycle started by the ticker prompts in the same way. *)
Lemma continuous_bidirectional_prompts_example :
  flag_continuous continuous_flags = true
  ∧ (main example_externals continuous_flags 0
       (example_world conflict_fs (typed "both"))).1 = Looping
  ∧ out (main example_externals continuous_flags 0
           (example_world conflict_fs (typed "both"))).2
    = [PrintStart ["src"] ["dst"]; PrintMode "bidirectional"; PrintDetected 1 0 1;
       PrintCopy ["src"; "c.txt"] ["dst"; "c.txt"];
       PrintConflictsHeader; PrintConflictFile ["c.txt"]; PrintChoicePrompt;
       PrintCopy ["src"; "c.txt"] ["dst"; "c.txt"];
       PrintKeptBoth ["dst"; "c.txt"] ["dst"; "c.txt.conflict_100"];
       PrintDone; PrintContinuousStart (30 * Time.Second)]
  ∧ stdin (main example_externals continuous_flags 0
             (example_world conflict_fs (typed "both"))).2 = EmptyString
  ∧ out (ContinuousSync example_externals (example_tool "bidirectional" false) 1
           (example_world conflict_fs (typed "target"))).2
    = [PrintContinuousStart (30 * Time.Second); PrintTick (130 * Time.Second);
       PrintStart ["src"] ["dst"]; PrintMode "bidirectional"; PrintDetected 1 0 1;
       PrintCopy ["src"; "c.txt"] ["dst"; "c.txt"];
       PrintConflictsHeader; PrintConflictFile ["c.txt"]; PrintChoicePrompt;
       PrintKeepTarget ["dst"; "c.txt"]; PrintDone]
  ∧ stdin (ContinuousSync example_externals (example_tool "bidirectional" false) 1
             (example_world conflict_fs (typed "target"))).2 = EmptyString.
Proof. repeat split; by vm_compute. Qed.

(** ** Further properties of the difference computation *)

Lemma range_append_none {V} (m : gmap path V) sel :
  (∀ k v, m !! k = Some v → sel k v = false) → range_append m sel = [].
Proof.
  intros Hsel. rewrite range_append_filter, filter_none; [done|].
  intros [k v] Hin%elem_of_map_to_list. simpl. by rewrite Hsel.
Qed.

(** X1: a snapshot compared with itself needs nothing: no copy, no
    deletion and no conflict, in any mode. *)
Theorem identical_snapshots_need_nothing (mode : string) (files : gmap path FileInfo) :
  compare_snapshots mode files files = ([], [], []).
Proof.
  unfold compare_snapshots.
  rewrite !range_append_none; [by case_bool_decide| | |].
  - intros k v Hk. unfold conflict_selected. rewrite Hk.
    rewrite (bool_decide_eq_false_2 (Checksum v ≠ Checksum v)) by (by intros ?).
    by rewrite andb_false_r.
  - intros k v Hk. unfold delete_selected. by rewrite Hk.
  - intros k v Hk. unfold copy_selected. rewrite Hk.
    destruct (negb (IsDir v) && negb (IsDir v)); [|done].
    rewrite !bool_decide_eq_false_2 by (by intros ?).
    unfold Time.After, Time.Add, Time.Second. simpl. rewrite orb_false_r.
    apply Z.ltb_ge. lia.
Qed.

(** X2: the three lists hold no path twice, every path to delete is
    kept out of the copies and of the conflicts, and every conflict is a
    path of both snapshots. *)
Theorem plan_lists_are_disjoint_sets (mode : string) (sourceFiles targetFiles : gmap path FileInfo) :
  NoDup (plan_toCopy (compare_snapshots mode sourceFiles targetFiles))
  ∧ NoDup (plan_toDelete (compare_snapshots mode sourceFiles targetFiles))
  ∧ NoDup (plan_conflicts (compare_snapshots mode sourceFiles targetFiles))
  ∧ (∀ p, p ∈ plan_toDelete (compare_snapshots mode sourceFiles targetFiles) →
          (p ∉ plan_toCopy (compare_snapshots mode sourceFiles targetFiles))
          ∧ (p ∉ plan_conflicts (compare_snapshots mode sourceFiles targetFiles)))
  ∧ (∀ p, p ∈ plan_conflicts (compare_snapshots mode sourceFiles targetFiles) →
          is_Some (sourceFiles !! p) ∧ is_Some (targetFiles !! p)).
Proof.
  split; [apply NoDup_range_append|]. split; [apply NoDup_range_append|].
  split.
  { unfold plan_conflicts, compare_snapshots. simpl.
    case_bool_decide; [apply NoDup_range_append|apply NoDup_nil_2]. }
  split.
  - intros p (t & Ht & Hsel)%elem_of_toDelete.
    unfold delete_selected in Hsel.
    destruct (sourceFiles !! p) as [s|] eqn:Hs; [done|]. split.
    + intros (s & Hs' & _)%elem_of_toCopy. congruence.
    + intros (_ & s & Hs' & _)%elem_of_conflicts. congruence.
  - intros p (_ & s & Hs & Hsel)%elem_of_conflicts. split; [by eexists|].
    unfold conflict_selected in Hsel. by destruct (targetFiles !! p).
Qed.

(** X3: a path that both snapshots hold is left alone as soon as one of
    the two records is a directory: it is not copied, not deleted and
    not a conflict, whatever the sizes, times and digests. *)
Theorem directory_pair_is_left_alone (mode : string) (sourceFiles targetFiles : gmap path FileInfo)
    p s t :
  sourceFiles !! p = Some s →
  targetFiles !! p = Some t →
  IsDir s = true ∨ IsDir t = true →
  (p ∉ plan_toCopy (compare_snapshots mode sourceFiles targetFiles))
  ∧ (p ∉ plan_toDelete (compare_snapshots mode sourceFiles targetFiles))
  ∧ (p ∉ plan_conflicts (compare_snapshots mode sourceFiles targetFiles)).
Proof.
  intros Hs Ht Hdir.
  assert (negb (IsDir s) && negb (IsDir t) = false) as Hb
    by (destruct Hdir as [-> | ->]; [done|by rewrite andb_false_r]).
  split; [|split].
  - intros (s' & Hs' & Hsel)%elem_of_toCopy. simplify_eq.
    unfold copy_selected in Hsel. by rewrite Ht, Hb in Hsel.
  - intros (t' & _ & Hsel)%elem_of_toDelete.
    unfold delete_selected in Hsel. by rewrite Hs in Hsel.
  - intros (_ & s' & Hs' & Hsel)%elem_of_conflicts. simplify_eq.
    unfold conflict_selected in Hsel. by rewrite Ht, Hb in Hsel.
Qed.

Lemma directory_pair_is_left_alone_witness :
  (["d"] ∉ plan_toCopy (compare_snapshots "bidirectional" snapshot_dir snapshot_notdir))
  ∧ (["d"] ∉ plan_toDelete (compare_snapshots "bidirectional" snapshot_dir snapshot_notdir))
  ∧ (["d"] ∉ plan_conflicts (compare_snapshots "bidirectional" snapshot_dir snapshot_notdir)).
Proof.
  apply (directory_pair_is_left_alone "bidirectional" snapshot_dir snapshot_notdir ["d"]
           {| Path := ["d"]; Size := dir_size; ModTime := 20 * Time.Second;
              Checksum := EmptyString; IsDir := true |}
           (file_record ["d"] 3 (10 * Time.Second) "ddd")).
  - reflexivity.
  - reflexivity.
  - left. reflexivity.
Defined.

(** X4: the copies, in full.  A path is copied exactly when the source
    snapshot holds it and either the target snapshot does not, or both
    records are files and they differ in size, or the source is more
    than a second newer, or the digests differ. *)
Theorem toCopy_characterisation (mode : string) (sourceFiles targetFiles : gmap path FileInfo) p :
  p ∈ plan_toCopy (compare_snapshots mode sourceFiles targetFiles)
  ↔ ∃ s, sourceFiles !! p = Some s
         ∧ (targetFiles !! p = None
            ∨ ∃ t, targetFiles !! p = Some t
                   ∧ IsDir s = false ∧ IsDir t = false
                   ∧ (Size s ≠ Size t
                      ∨ ModTime t + Time.Second < ModTime s
                      ∨ Checksum s ≠ Checksum t)).
Proof.
  rewrite elem_of_toCopy. unfold copy_selected, Time.After, Time.Add.
  split; intros (s & Hs & H); exists s; (split; [done|]).
  - destruct (targetFiles !! p) as [t|]; [|by left]. right. exists t. split; [done|].
    destruct (IsDir s), (IsDir t); try done. simpl in H.
    split; [done|]. split; [done|].
    apply orb_prop in H as [[H|H]%orb_prop|H].
    + left. by apply bool_decide_eq_true_1 in H.
    + right. left. by apply Z.ltb_lt.
    + right. right. by apply bool_decide_eq_true_1 in H.
  - destruct H as [->|(t & -> & -> & -> & H)]; [done|]. simpl.
    destruct H as [H|[H|H]].
    + by rewrite (bool_decide_eq_true_2 _ H).
    + apply Z.ltb_lt in H. rewrite H. by rewrite orb_true_r.
    + rewrite (bool_decide_eq_true_2 (Checksum s ≠ Checksum t)) by done.
      by rewrite orb_true_r.
Qed.

(** ** Further properties of the scan *)

Lemma walk_events_present (f : gmap path node) root n :
  f !! root = Some n →
  walk_events f root
  = walk_event_of f <$>
      merge_sort path_le
        (filter (λ k, root `prefix_of` k ∧ reachable f root (Rel root k) = true)
                (map_to_list f).*1).
Proof. intros H. unfold walk_events. by rewrite H. Qed.

Lemma walk_events_complete (f : gmap path node) root rel n :
  is_Some (f !! root) →
  f !! (root ++ rel) = Some n →
  reachable f root rel = true →
  walk_event_of f (root ++ rel) ∈ walk_events f root.
Proof.
  intros [r Hr] Hn Hreach. rewrite (walk_events_present _ _ _ Hr).
  apply list_elem_of_fmap. exists (root ++ rel). split; [done|].
  rewrite merge_sort_Permutation. apply list_elem_of_filter. split.
  - split; [by apply prefix_app_r|]. unfold Rel. by rewrite drop_app_length.
  - apply list_elem_of_fmap. exists (root ++ rel, n). split; [done|].
    by apply elem_of_map_to_list.
Qed.

Lemma walk_event_of_is_Visit (f : gmap path node) k :
  is_Visit (walk_event_of f k)
  ↔ ∃ n, f !! k = Some n
         ∧ ∀ mode mtime, n = Directory mode mtime → can_read mode = true.
Proof.
  unfold walk_event_of.
  destruct (f !! k) as [[mode mtime data|mode mtime]|] eqn:Hk; simpl.
  - split; [|done]. intros _. eexists. split; [done|]. intros ??. discriminate.
  - destruct (can_read mode) eqn:Hm; simpl.
    + split; [|done]. intros _. eexists. split; [done|]. by intros ?? [= <- <-].
    + split; [done|]. intros (n & [= <-] & Hn). specialize (Hn _ _ eq_refl). congruence.
  - split; [done|]. by intros (n & ? & _).
Qed.

Lemma walk_events_all_visit (f : gmap path node) root :
  Forall is_Visit (walk_events f root) ↔ is_Some (f !! root) ∧ all_listable f root.
Proof.
  split.
  - intros Hall. destruct (f !! root) as [r|] eqn:Hr.
    + split; [by eexists|]. intros rel mode mtime Hreach Hk.
      rewrite Forall_forall in Hall.
      specialize (Hall _ (walk_events_complete f root rel _ (mk_is_Some _ _ Hr) Hk Hreach)).
      apply walk_event_of_is_Visit in Hall as (n & Hn & Hdir).
      rewrite Hk in Hn. injection Hn as <-. by eapply Hdir.
    + rewrite (walk_events_missing _ _ Hr) in Hall. by inversion Hall.
  - intros [Hroot Hlist]. apply Forall_forall. intros ev Hev.
    destruct (walk_events_elem f root ev Hroot Hev)
      as (k & -> & [n Hn] & [rel ->] & Hreach).
    unfold Rel in Hreach. rewrite drop_app_length in Hreach.
    apply walk_event_of_is_Visit. exists n. split; [done|].
    intros mode mtime ->. by eapply Hlist.
Qed.

Section ScanExact.
Variable E : Externals.
Variable fst : FileSyncTool.

Lemma CalculateChecksum_cases filePath w :
  CalculateChecksum E fst filePath w
  = (match fs w !! filePath with
     | Some (File mode _ data) =>
         if can_read mode then (md5_hex E data, None) else (EmptyString, Some EACCES)
     | Some (Directory mode _) =>
         if can_read mode then (EmptyString, Some EISDIR) else (EmptyString, Some EACCES)
     | None => (EmptyString, Some ENOENT)
     end, w).
Proof.
  unfold CalculateChecksum, Open, read_all. munfold.
  destruct (fs w !! filePath) as [[mode mtime data|mode mtime]|] eqn:Hp;
    [destruct (can_read mode)..|]; simpl; by rewrite ?Hp.
Qed.

Lemma scan_visit_record dirPath files p n w :
  fs w !! p = Some n → p ≠ dirPath →
  shouldIncludeFile E fst (Rel dirPath p) (node_info n) = true →
  scan_visit E fst dirPath files (Visit p (node_info n)) w
  = ((<[Rel dirPath p := snapshot_record E (Rel dirPath p) n]> files, None), w).
Proof.
  intros Hn Hp Hinc. unfold scan_visit.
  rewrite bool_decide_eq_false_2 by done. rewrite Hinc.
  destruct n as [mode mtime data|mode mtime].
  - rewrite (shouldIncludeFile_size E fst (Rel dirPath p)
               (node_info (File mode mtime data)) eq_refl Hinc). simpl.
    unfold mbind, M_bind. rewrite CalculateChecksum_cases, Hn.
    unfold snapshot_record, node_digest. by destruct (can_read mode).
  - done.
Qed.

Lemma scan_visit_skip dirPath files p info w :
  p = dirPath ∨ shouldIncludeFile E fst (Rel dirPath p) info = false →
  scan_visit E fst dirPath files (Visit p info) w = ((files, None), w).
Proof.
  intros H. unfold scan_visit. case_bool_decide; [done|].
  destruct H as [H|H]; [done|]. by rewrite H.
Qed.

Lemma scan_walk_error_iff dirPath evs files w :
  (scan_walk E fst dirPath evs files w).1.2 = None ↔ Forall is_Visit evs.
Proof.
  revert files. induction evs as [|ev evs IH]; intros files; [done|].
  rewrite scan_walk_cons, Forall_cons. destruct ev as [p info|p e].
  - destruct (scan_visit_cases E fst dirPath files p info w) as (files' & -> & _).
    rewrite IH. simpl. tauto.
  - simpl. split; [done|]. intros [H _]. destruct H.
Qed.

(** The records of a walk over entries of the tree. *)
Lemma scan_walk_records root evs files w :
  (∀ ev, ev ∈ evs → ev ∈ walk_events (fs w) root) →
  (∀ p fi, files !! p = Some fi →
           ∃ n, fs w !! (root ++ p) = Some n ∧ fi = snapshot_record E p n) →
  ∀ p fi, (scan_walk E fst root evs files w).1.1 !! p = Some fi →
          ∃ n, fs w !! (root ++ p) = Some n ∧ fi = snapshot_record E p n.
Proof.
  destruct (fs w !! root) as [r|] eqn:Hroot; cycle 1.
  { rewrite (walk_events_missing _ _ Hroot). intros Hevs Hfiles.
    destruct evs as [|ev evs]; [done|].
    assert (ev = VisitErr root ENOENT) as ->
      by (apply list_elem_of_singleton, Hevs; by left).
    by rewrite scan_walk_cons. }
  revert files. induction evs as [|ev evs IH]; intros files Hevs Hfiles; [done|].
  rewrite scan_walk_cons. destruct ev as [k info|k e]; [|intros p fi; apply Hfiles].
  destruct (walk_events_elem (fs w) root (Visit k info) (mk_is_Some _ _ Hroot))
    as (k' & Hev & _ & [rel ->] & _); [apply Hevs; by left|].
  symmetry in Hev. apply walk_visit_info in Hev as (-> & n & Hn & ->).
  destruct (decide (root ++ rel = root
                    ∨ shouldIncludeFile E fst (Rel root (root ++ rel)) (node_info n) = false))
    as [Hskip|Hrec].
  - rewrite scan_visit_skip by done.
    apply IH; [intros ev Hev; apply Hevs; by right|done].
  - rewrite scan_visit_record; [|done|tauto|by destruct (shouldIncludeFile _ _ _ _); tauto].
    apply IH; [intros ev Hev; apply Hevs; by right|].
    intros p fi. unfold Rel. rewrite drop_app_length, lookup_insert.
    case_decide as Hp; [|by apply Hfiles]. intros [= <-]. subst p. eauto.
Qed.

Lemma scan_walk_keeps_records root evs files w p :
  Forall is_Visit evs →
  is_Some (files !! p) →
  is_Some ((scan_walk E fst root evs files w).1.1 !! p).
Proof.
  intros Hall. revert files. induction Hall as [|ev evs Hev _ IH]; intros files Hp; [done|].
  rewrite scan_walk_cons. destruct ev as [k info|]; [|done].
  destruct (scan_visit_cases E fst root files k info w)
    as (files' & -> & [->|(_ & _ & sum & ->)]); apply IH; [done|].
  rewrite lookup_insert. case_decide; [by eexists|done].
Qed.

Lemma scan_walk_complete root evs files w k n :
  Forall is_Visit evs →
  Visit k (node_info n) ∈ evs →
  fs w !! k = Some n → k ≠ root →
  shouldIncludeFile E fst (Rel root k) (node_info n) = true →
  is_Some ((scan_walk E fst root evs files w).1.1 !! Rel root k).
Proof.
  intros Hall. revert files.
  induction Hall as [|ev evs Hev Hall IH]; intros files Hin Hn Hk Hinc;
    [by apply elem_of_nil in Hin|].
  rewrite scan_walk_cons. apply elem_of_cons in Hin as [<-|Hin].
  - rewrite scan_visit_record by done.
    apply scan_walk_keeps_records; [done|]. rewrite lookup_insert_eq. by eexists.
  - destruct ev as [k' info'|]; [|done].
    destruct (scan_visit_cases E fst root files k' info' w) as (files' & -> & _).
    by apply IH.
Qed.

Lemma ScanDirectory_error_iff root w :
  (ScanDirectory E fst root w).1.2 = None
  ↔ is_Some (fs w !! root) ∧ all_listable (fs w) root.
Proof.
  unfold ScanDirectory. munfold. rewrite scan_walk_error_iff.
  apply walk_events_all_visit.
Qed.

Lemma ScanDirectory_exact root w files :
  (ScanDirectory E fst root w).1 = (files, None) →
  ∀ p fi,
    files !! p = Some fi
    ↔ p ≠ [] ∧ reachable (fs w) root p = true
      ∧ ∃ n, fs w !! (root ++ p) = Some n
             ∧ shouldIncludeFile E fst p (node_info n) = true
             ∧ fi = snapshot_record E p n.
Proof.
  intros Hscan p fi.
  assert (files = (ScanDirectory E fst root w).1.1) as Hfiles by (by rewrite Hscan).
  assert ((ScanDirectory E fst root w).1.2 = None) as Herr by (by rewrite Hscan).
  assert (∀ q fq, files !! q = Some fq →
            ∃ n, fs w !! (root ++ q) = Some n ∧ fq = snapshot_record E q n) as Hrec.
  { subst files. unfold ScanDirectory. munfold.
    by apply scan_walk_records. }
  split.
  - intros Hp. destruct (Hrec _ _ Hp) as (n & Hn & ->).
    rewrite Hfiles in Hp.
    apply ScanDirectory_sound in Hp as (Hne & Hreach & n' & Hn' & Hinc & _).
    rewrite Hn in Hn'. injection Hn' as <-. eauto 10.
  - intros (Hne & Hreach & n & Hn & Hinc & ->).
    pose proof Herr as Hvis. unfold ScanDirectory in Hvis. munfold.
    rewrite scan_walk_error_iff in Hvis.
    apply ScanDirectory_error_iff in Herr as [Hroot Hlist].
    pose proof (walk_events_complete (fs w) root p n Hroot Hn Hreach) as Hin.
    assert (walk_event_of (fs w) (root ++ p) = Visit (root ++ p) (node_info n)) as Hev.
    { unfold walk_event_of. rewrite Hn. destruct n as [|mode mtime]; [done|].
      by rewrite (Hlist p mode mtime Hreach Hn). }
    rewrite Hev in Hin.
    assert (root ++ p ≠ root) as Hk.
    { intros Heq. apply Hne. apply (app_inv_head root). by rewrite app_nil_r. }
    assert (Rel root (root ++ p) = p) as Hrel by (unfold Rel; by rewrite drop_app_length).
    destruct (scan_walk_complete root (walk_events (fs w) root) ∅ w (root ++ p) n
                Hvis Hin Hn Hk) as [fi Hfi]; [by rewrite Hrel|].
    rewrite Hrel in Hfi.
    assert (files !! p = Some fi) as Hp
      by (rewrite Hfiles; unfold ScanDirectory; by munfold).
    destruct (Hrec _ _ Hp) as (n' & Hn' & ->).
    rewrite Hn in Hn'. by injection Hn' as <-.
Qed.

End ScanExact.

Lemma reachable_under_file (f : gmap path node) root rel mode mtime data :
  f !! root = Some (File mode mtime data) → rel ≠ [] → reachable f root rel = false.
Proof.
  intros Hroot Hrel. destruct rel as [|c rel]; [done|].
  unfold reachable. cbn [length seq forallb take]. rewrite app_nil_r.
  unfold listable at 1. by rewrite Hroot.
Qed.

Section ScanProperties.
Variable E : Externals.
Variable fst : FileSyncTool.
Local Abbreviation cfg := (Config fst).

Lemma CompareDirectories_scans w sf tf :
  (ScanDirectory E fst (SourceDir cfg) w).1 = (sf, None) →
  (ScanDirectory E fst (TargetDir cfg) w).1 = (tf, None) →
  CompareDirectories E fst w = (compare_snapshots (SyncMode cfg) sf tf, w).
Proof.
  intros Hs Ht. unfold CompareDirectories. unfold mbind, M_bind.
  pose proof (ScanDirectory_world E fst (SourceDir cfg) w) as Hw1.
  destruct (ScanDirectory E fst (SourceDir cfg) w) as [[sf' e1] w1].
  simpl in Hs, Hw1. injection Hs as -> ->. subst w1.
  pose proof (ScanDirectory_world E fst (TargetDir cfg) w) as Hw2.
  destruct (ScanDirectory E fst (TargetDir cfg) w) as [[tf' e2] w2].
  simpl in Ht, Hw2. injection Ht as -> ->. by subst w2.
Qed.

Lemma ScanDirectory_file_root root w mode mtime data :
  fs w !! root = Some (File mode mtime data) →
  ScanDirectory E fst root w = ((∅, None), w).
Proof.
  intros Hroot.
  pose proof (ScanDirectory_world E fst root w) as Hw.
  assert ((ScanDirectory E fst root w).1.2 = None) as Herr.
  { apply ScanDirectory_error_iff. split; [by eexists|].
    intros rel m t Hreach Hk. destruct (decide (rel = [])) as [->|Hne].
    - rewrite app_nil_r in Hk. congruence.
    - by rewrite (reachable_under_file _ _ _ _ _ _ Hroot Hne) in Hreach. }
  destruct (ScanDirectory E fst root w) as [[files err] w'] eqn:Hscan.
  simpl in Hw, Herr. subst w' err. f_equal. f_equal.
  apply map_eq. intros p. rewrite lookup_empty.
  destruct (files !! p) as [fi|] eqn:Hp; [|done]. exfalso.
  apply (ScanDirectory_exact E fst root w files) in Hp; [|by rewrite Hscan].
  destruct Hp as (Hne & Hreach & _).
  by rewrite (reachable_under_file _ _ _ _ _ _ Hroot Hne) in Hreach.
Qed.

(** X5: [CalculateChecksum] returns a digest and no error exactly for a
    regular file that can be read, and the digest is then the MD5 of the
    file's bytes; in every other case (missing path, directory, no read
    permission) it returns the empty string with the error.  It changes
    nothing. *)
Theorem checksum_only_of_readable_file filePath w :
  (CalculateChecksum E fst filePath w).2 = w
  ∧ ((CalculateChecksum E fst filePath w).1.2 = None
     ↔ ∃ mode mtime data,
         fs w !! filePath = Some (File mode mtime data) ∧ can_read mode = true)
  ∧ (∀ mode mtime data,
       fs w !! filePath = Some (File mode mtime data) → can_read mode = true →
       (CalculateChecksum E fst filePath w).1.1 = md5_hex E data)
  ∧ ((CalculateChecksum E fst filePath w).1.2 ≠ None →
     (CalculateChecksum E fst filePath w).1.1 = EmptyString).
Proof.
  rewrite CalculateChecksum_cases. simpl. split; [done|].
  destruct (fs w !! filePath) as [[mode mtime data|mode mtime]|] eqn:Hp;
    [destruct (can_read mode) eqn:Hm..|]; simpl.
  all: split; [split; [try done; eauto|
                       try done; intros (m & t & d & Heq & Hr); congruence]|].
  all: split; [intros m t d Heq Hr; congruence|done].
Qed.

(** X6: the scans and the comparison only read.  [ScanDirectory] leaves
    the world as it found it, and [CompareDirectories] leaves the file
    system, the standard input and the clock untouched: all it may do is
    log one scan failure. *)
Theorem comparison_only_reads w :
  (∀ root, (ScanDirectory E fst root w).2 = w)
  ∧ fs (CompareDirectories E fst w).2 = fs w
  ∧ stdin (CompareDirectories E fst w).2 = stdin w
  ∧ clock (CompareDirectories E fst w).2 = clock w
  ∧ (out (CompareDirectories E fst w).2 = out w
     ∨ ∃ e, out (CompareDirectories E fst w).2 = out w ++ [LogScanSourceFailed e]
            ∨ out (CompareDirectories E fst w).2 = out w ++ [LogScanTargetFailed e]).
Proof.
  split; [intros root; apply ScanDirectory_world|].
  unfold CompareDirectories. unfold mbind, M_bind.
  pose proof (ScanDirectory_world E fst (SourceDir cfg) w) as Hw1.
  destruct (ScanDirectory E fst (SourceDir cfg) w) as [[sf [e|]] w1];
    simpl in Hw1; subst w1.
  { simpl. repeat split; try done. right. exists e. by left. }
  pose proof (ScanDirectory_world E fst (TargetDir cfg) w) as Hw2.
  destruct (ScanDirectory E fst (TargetDir cfg) w) as [[tf [e|]] w2];
    simpl in Hw2; subst w2.
  { simpl. repeat split; try done. right. exists e. by right. }
  simpl. repeat split; try done. by left.
Qed.

(** X7: a scan that returns no error holds exactly one record for each
    entry that lies below the root, is reached through directories, and
    passes the filter: it is keyed by the path relative to the root and
    carries the entry's size, modification time and directory flag, and
    the MD5 of its bytes (nothing for a directory or for a file that
    cannot be read).  The root itself is never recorded. *)
Theorem successful_scan_is_exact root w files :
  (ScanDirectory E fst root w).1 = (files, None) →
  ∀ p fi,
    files !! p = Some fi
    ↔ p ≠ [] ∧ reachable (fs w) root p = true
      ∧ ∃ n, fs w !! (root ++ p) = Some n
             ∧ shouldIncludeFile E fst p (node_info n) = true
             ∧ fi = snapshot_record E p n.
Proof. apply ScanDirectory_exact. Qed.


(** X9: the patterns are matched against the last component of the
    path.  A file whose name does not match a non-empty include pattern,
    or matches a non-empty exclude pattern, is in no snapshot, whether
    the scan ends with an error or not; exclusion wins when both
    patterns match. *)
Theorem filtered_file_is_never_recorded root w p mode mtime data :
  fs w !! (root ++ p) = Some (File mode mtime data) →
  (IncludePattern cfg ≠ EmptyString
   ∧ path_Match E (IncludePattern cfg) (Base p) = false)
  ∨ (ExcludePattern cfg ≠ EmptyString
     ∧ path_Match E (ExcludePattern cfg) (Base p) = true) →
  (ScanDirectory E fst root w).1.1 !! p = None.
Proof.
  intros Hfile Hpat.
  destruct (_ !! p) as [fi|] eqn:Hfi; [|done]. exfalso.
  apply ScanDirectory_sound in Hfi as (_ & _ & n & Hn & Hinc & _).
  rewrite Hfile in Hn. injection Hn as <-.
  unfold shouldIncludeFile in Hinc. simpl in Hinc.
  destruct Hpat as [[Hne Hm]|[Hne Hm]].
  - by rewrite bool_decide_eq_false_2, Hm in Hinc.
  - rewrite (bool_decide_eq_false_2 (ExcludePattern cfg = EmptyString)), Hm in Hinc by done.
    simpl in Hinc. by destruct (_ && _).
Qed.

(** X10: neither the patterns nor the size ceiling apply to
    directories.  A scan that returns no error records every directory
    it reaches below the root, with the directory flag set and no
    digest. *)
Theorem directory_is_always_recorded root w files p mode mtime :
  (ScanDirectory E fst root w).1 = (files, None) →
  p ≠ [] →
  reachable (fs w) root p = true →
  fs w !! (root ++ p) = Some (Directory mode mtime) →
  files !! p = Some {| Path := p; Size := dir_size; ModTime := mtime;
                       Checksum := EmptyString; IsDir := true |}.
Proof.
  intros Hscan Hne Hreach Hdir.
  apply (ScanDirectory_exact E fst root w files Hscan).
  split; [done|]. split; [done|]. exists (Directory mode mtime). done.
Qed.

(** X11: a source root that is a regular file is scanned without error
    and gives the empty snapshot, so the comparison plans no copy, no
    conflict, and the deletion of every path of the target snapshot. *)
Theorem file_as_source_root_deletes_all w mode mtime data tf :
  fs w !! SourceDir cfg = Some (File mode mtime data) →
  (ScanDirectory E fst (TargetDir cfg) w).1 = (tf, None) →
  (ScanDirectory E fst (SourceDir cfg) w).1 = (∅, None)
  ∧ plan_toCopy (CompareDirectories E fst w).1 = []
  ∧ plan_conflicts (CompareDirectories E fst w).1 = []
  ∧ ∀ p, p ∈ plan_toDelete (CompareDirectories E fst w).1 ↔ is_Some (tf !! p).
Proof.
  intros Hroot Ht.
  pose proof (ScanDirectory_file_root _ _ _ _ _ Hroot) as Hs.
  rewrite (CompareDirectories_scans w ∅ tf) by (by rewrite ?Hs).
  split; [by rewrite Hs|]. simpl.
  split; [by apply range_append_none|]. split.
  - unfold plan_conflicts, compare_snapshots. simpl.
    case_bool_decide; [|done]. by apply range_append_none.
  - intros p. rewrite elem_of_toDelete. unfold delete_selected.
    rewrite lookup_empty. split; [intros (t & Hp & _); by eexists|].
    intros [t Hp]. by exists t.
Qed.

(** X12: a path that both snapshots hold, and whose two entries are the
    same (the same kind, bytes, mode and modification time), needs
    nothing: the comparison does not copy it, delete it or report it as
    a conflict. *)
Theorem identical_entries_need_nothing w sf tf p n :
  (ScanDirectory E fst (SourceDir cfg) w).1 = (sf, None) →
  (ScanDirectory E fst (TargetDir cfg) w).1 = (tf, None) →
  is_Some (sf !! p) →
  is_Some (tf !! p) →
  fs w !! (SourceDir cfg ++ p) = Some n →
  fs w !! (TargetDir cfg ++ p) = Some n →
  (p ∉ plan_toCopy (CompareDirectories E fst w).1)
  ∧ (p ∉ plan_toDelete (CompareDirectories E fst w).1)
  ∧ (p ∉ plan_conflicts (CompareDirectories E fst w).1).
Proof.
  intros Hs Ht [s Hsp] [t Htp] Hns Hnt.
  rewrite (CompareDirectories_scans w sf tf Hs Ht). simpl.
  pose proof Hsp as Hs'. pose proof Htp as Ht'.
  apply (ScanDirectory_exact E fst _ w sf Hs) in Hs' as (_ & _ & n1 & Hn1 & _ & ->).
  apply (ScanDirectory_exact E fst _ w tf Ht) in Ht' as (_ & _ & n2 & Hn2 & _ & ->).
  rewrite Hns in Hn1. injection Hn1 as <-.
  rewrite Hnt in Hn2. injection Hn2 as <-.
  set (r := snapshot_record E p n) in *.
  split; [|split].
  - intros (s & Hs' & Hsel)%elem_of_toCopy. simplify_eq.
    unfold copy_selected in Hsel. rewrite Htp in Hsel.
    destruct (negb (IsDir r) && negb (IsDir r)); [|done].
    rewrite !bool_decide_eq_false_2 in Hsel by (by intros ?).
    unfold Time.After, Time.Add, Time.Second in Hsel. simpl in Hsel.
    rewrite orb_false_r in Hsel. apply Z.ltb_lt in Hsel. lia.
  - intros (t & _ & Hsel)%elem_of_toDelete.
    unfold delete_selected in Hsel. by rewrite Hsp in Hsel.
  - intros (_ & s & Hs' & Hsel)%elem_of_conflicts. simplify_eq.
    unfold conflict_selected in Hsel. rewrite Htp in Hsel.
    rewrite (bool_decide_eq_false_2 (Checksum r ≠ Checksum r)) in Hsel by (by intros ?).
    by rewrite andb_false_r in Hsel.
Qed.

End ScanProperties.

(** Instances on the example trees. *)

Lemma successful_scan_is_exact_witness :
  (ScanDirectory example_externals small_limit_tool ["src"]
     (example_world big_file_fs EmptyString)).1.1 !! ["ok.txt"]
  = Some (snapshot_record example_externals ["ok.txt"] (File 420 5 (bytes_of "hi")))
  ↔ ["ok.txt"] ≠ []
    ∧ reachable (fs (example_world big_file_fs EmptyString)) ["src"] ["ok.txt"] = true
    ∧ ∃ n, fs (example_world big_file_fs EmptyString) !! (["src"] ++ ["ok.txt"]) = Some n
           ∧ shouldIncludeFile example_externals small_limit_tool ["ok.txt"]
               (node_info n) = true
           ∧ snapshot_record example_externals ["ok.txt"] (File 420 5 (bytes_of "hi"))
             = snapshot_record example_externals ["ok.txt"] n.
Proof.
  apply (successful_scan_is_exact example_externals small_limit_tool ["src"]
           (example_world big_file_fs EmptyString)).
  vm_compute. reflexivity.
Defined.

Lemma filtered_file_is_never_recorded_witness :
  (ScanDirectory example_externals pattern_tool ["src"]
     (example_world pattern_fs EmptyString)).1.1 !! ["skip.txt"] = None.
Proof.
  apply (filtered_file_is_never_recorded example_externals pattern_tool ["src"]
           (example_world pattern_fs EmptyString) ["skip.txt"]
           420%N 5 (bytes_of "skip")).
  - reflexivity.
  - right. split; [discriminate|reflexivity].
Defined.

Lemma directory_is_always_recorded_witness :
  (ScanDirectory example_externals (example_tool "unidirectional" true) ["src"]
     (example_world nested_fs EmptyString)).1.1 !! ["d"]
  = Some {| Path := ["d"]; Size := dir_size; ModTime := 0;
            Checksum := EmptyString; IsDir := true |}.
Proof.
  apply (directory_is_always_recorded example_externals
           (example_tool "unidirectional" true) ["src"]
           (example_world nested_fs EmptyString) _ ["d"] 493%N 0).
  - vm_compute. reflexivity.
  - discriminate.
  - reflexivity.
  - reflexivity.
Defined.

Lemma file_as_source_root_deletes_all_witness :
  (ScanDirectory example_externals (example_tool "unidirectional" false) ["src"]
     (example_world file_root_fs EmptyString)).1 = (∅, None)
  ∧ plan_toCopy (CompareDirectories example_externals
                   (example_tool "unidirectional" false)
                   (example_world file_root_fs EmptyString)).1 = []
  ∧ plan_conflicts (CompareDirectories example_externals
                      (example_tool "unidirectional" false)
                      (example_world file_root_fs EmptyString)).1 = []
  ∧ ∀ p, p ∈ plan_toDelete (CompareDirectories example_externals
                              (example_tool "unidirectional" false)
                              (example_world file_root_fs EmptyString)).1
         ↔ is_Some ((ScanDirectory example_externals
                       (example_tool "unidirectional" false) ["dst"]
                       (example_world file_root_fs EmptyString)).1.1 !! p).
Proof.
  apply (file_as_source_root_deletes_all example_externals
           (example_tool "unidirectional" false)
           (example_world file_root_fs EmptyString) 420%N 5 (bytes_of "data")).
  - reflexivity.
  - vm_compute. reflexivity.
Defined.

Lemma identical_entries_need_nothing_witness :
  (["c.txt"] ∉ plan_toCopy (CompareDirectories example_externals
                              (example_tool "bidirectional" false)
                              (example_world synced_fs EmptyString)).1)
  ∧ (["c.txt"] ∉ plan_toDelete (CompareDirectories example_externals
                                  (example_tool "bidirectional" false)
                                  (example_world synced_fs EmptyString)).1)
  ∧ (["c.txt"] ∉ plan_conflicts (CompareDirectories example_externals
                                   (example_tool "bidirectional" false)
                                   (example_world synced_fs EmptyString)).1).
Proof.
  apply (identical_entries_need_nothing example_externals
           (example_tool "bidirectional" false)
           (example_world synced_fs EmptyString)
           (ScanDirectory example_externals (example_tool "bidirectional" false) ["src"]
              (example_world synced_fs EmptyString)).1.1
           (ScanDirectory example_externals (example_tool "bidirectional" false) ["dst"]
              (example_world synced_fs EmptyString)).1.1
           ["c.txt"] (File 420 10500000000 (bytes_of "new"))).
  - vm_compute. reflexivity.
  - vm_compute. reflexivity.
  - eexists. vm_compute. reflexivity.
  - eexists. vm_compute. reflexivity.
  - reflexivity.
  - reflexivity.
Defined.

(** ** What the actions leave alone *)

#[global] Instance confined_preorder P : PreOrder (confined P).
Proof.
  split.
  - intros w k _. split; [done|]. intros n Hn. by left.
  - intros w1 w2 w3 H12 H23 k Hk.
    destruct (H12 k Hk) as [Ha1 Hb1]. destruct (H23 k Hk) as [Ha2 Hb2]. split.
    + intros n Hn. by apply Ha2, Ha1.
    + intros n Hn. destruct (Hb2 n Hn) as [Hn2|Hd]; [|by right]. by apply Hb1.
Qed.

Lemma confined_weaken (P Q : path → Prop) w w' :
  (∀ k, P k → Q k) → confined P w w' → confined Q w w'.
Proof. intros HPQ H k Hk. apply H. intros HP. by apply Hk, HPQ. Qed.

Lemma confined_insert_dir P w k mode mtime :
  fs w !! k = None →
  confined P w (with_fs (<[k := Directory mode mtime]> (fs w)) w).
Proof.
  intros Hnone k' _. simpl. destruct (decide (k' = k)) as [->|Hne].
  - rewrite lookup_insert_eq. split; [intros n Hn; congruence|].
    intros n [= <-]. right. by eexists _, _.
  - rewrite lookup_insert_ne by done. split; [done|]. intros n Hn. by left.
Qed.

Lemma confined_insert (P : path → Prop) w k n :
  P k → confined P w (with_fs (<[k := n]> (fs w)) w).
Proof.
  intros HP k' Hk'. simpl. rewrite lookup_insert_ne by (intros ->; done).
  split; [done|]. intros n' Hn'. by left.
Qed.

Lemma confined_delete (P : path → Prop) w k :
  P k → confined P w (with_fs (delete k (fs w)) w).
Proof.
  intros HP k' Hk'. simpl. rewrite lookup_delete_ne by (intros ->; done).
  split; [done|]. intros n' Hn'. by left.
Qed.

Lemma emit_confined P o : preserves (confined P) (emit o).
Proof. intros w k _. split; [done|]. intros n Hn. by left. Qed.

Lemma Mkdir_confined P p perm : preserves (confined P) (Mkdir p perm).
Proof.
  unfold Mkdir. intros w. munfold. repeat case_match; simplify_eq/=; try reflexivity.
  by apply confined_insert_dir.
Qed.

Lemma mkdirAll_confined P depth p perm : preserves (confined P) (mkdirAll depth p perm).
Proof.
  revert p. induction depth as [|depth IH]; intros p; simpl.
  - apply (preserves_bind (confined P)); [by apply (preserves_reader (confined P))|].
    intros f.
    repeat case_match; try apply (preserves_ret (confined P)). apply Mkdir_confined.
  - apply (preserves_bind (confined P)); [by apply (preserves_reader (confined P))|].
    intros f.
    repeat case_match; try apply (preserves_ret (confined P)).
    apply (preserves_bind (confined P)); [apply IH|].
    intros [e|]; [apply (preserves_ret (confined P))|]. apply Mkdir_confined.
Qed.

Lemma Create_confined (P : path → Prop) p : P p → preserves (confined P) (Create p).
Proof.
  intros HP. unfold Create. intros w. munfold.
  repeat case_match; simplify_eq/=; try reflexivity; by apply confined_insert.
Qed.

Lemma io_Copy_confined (P : path → Prop) dst src :
  P dst → preserves (confined P) (io_Copy dst src).
Proof.
  intros HP. unfold io_Copy, read_all. intros w. munfold.
  repeat case_match; simplify_eq/=; try reflexivity; by apply confined_insert.
Qed.

Lemma Chmod_confined (P : path → Prop) p mode :
  P p → preserves (confined P) (Chmod p mode).
Proof.
  intros HP. unfold Chmod. intros w. munfold.
  repeat case_match; simplify_eq/=; try reflexivity; by apply confined_insert.
Qed.

Lemma Chtimes_confined (P : path → Prop) p a m :
  P p → preserves (confined P) (Chtimes p a m).
Proof.
  intros HP. unfold Chtimes. intros w. munfold.
  repeat case_match; simplify_eq/=; try reflexivity; by apply confined_insert.
Qed.

Lemma Remove_confined (P : path → Prop) p : P p → preserves (confined P) (Remove p).
Proof.
  intros HP. unfold Remove. intros w. munfold.
  repeat case_match; simplify_eq/=; try reflexivity; by apply confined_delete.
Qed.

Ltac confined_step P :=
  first
    [ apply (preserves_ret (confined P))
    | apply (preserves_when (confined P)), emit_confined
    | apply emit_confined
    | apply mkdirAll_confined
    | apply Create_confined; solve [auto]
    | apply io_Copy_confined; solve [auto]
    | apply Chmod_confined; solve [auto]
    | apply Chtimes_confined; solve [auto]
    | apply Remove_confined; solve [auto]
    | apply (preserves_reader (confined P)), Open_world
    | apply (preserves_reader (confined P)), Lstat_world
    | by apply (preserves_reader (confined P))
    | apply (preserves_bind (confined P)); [|intros ?]
    | match goal with |- preserves _ (match ?x with _ => _ end) => destruct x end
    | match goal with |- preserves _ (if ?x then _ else _) => destruct x end ].

Section Confined.
Variable fst : FileSyncTool.
Variable P : path → Prop.
Local Abbreviation cfg := (Config fst).

Lemma CopyFile_confined q :
  (DryRun cfg = false → P (Join (TargetDir cfg) q)) →
  preserves (confined P) (CopyFile fst q).
Proof.
  intros HP. unfold CopyFile, MkdirAll, Stat.
  apply (preserves_bind (confined P)); [apply mkdirAll_confined|].
  intros [e|]; [apply (preserves_ret (confined P))|].
  destruct (DryRun cfg); [repeat confined_step P|].
  specialize (HP eq_refl). repeat confined_step P.
Qed.

Lemma DeleteFile_confined q :
  (DryRun cfg = false → P (Join (TargetDir cfg) q)) →
  preserves (confined P) (DeleteFile fst q).
Proof.
  intros HP. unfold DeleteFile.
  destruct (DryRun cfg); [repeat confined_step P|].
  specialize (HP eq_refl). repeat confined_step P.
Qed.

Lemma run_deletes_confined l :
  (DryRun cfg = false → ∀ q, P (Join (TargetDir cfg) q)) →
  preserves (confined P) (run_deletes fst l).
Proof.
  intros HP. apply (preserves_for_each (confined P)). intros q.
  apply (preserves_bind (confined P)); [apply DeleteFile_confined; auto|].
  intros [e|]; confined_step P.
Qed.

Lemma run_copies_confined l :
  (DryRun cfg = false → ∀ q, P (Join (TargetDir cfg) q)) →
  preserves (confined P) (run_copies fst l).
Proof.
  intros HP. apply (preserves_for_each (confined P)). intros q.
  apply (preserves_bind (confined P)); [apply CopyFile_confined; auto|].
  intros [e|]; confined_step P.
Qed.

End Confined.

Section ConfinedCycle.
Variable E : Externals.
Variable fst : FileSyncTool.
Variable P : path → Prop.
Local Abbreviation cfg := (Config fst).

Lemma CompareDirectories_confined : preserves (confined P) (CompareDirectories E fst).
Proof.
  unfold CompareDirectories.
  apply (preserves_bind (confined P));
    [apply (preserves_reader (confined P)), ScanDirectory_world|].
  intros [sf [e|]]; [repeat confined_step P|].
  apply (preserves_bind (confined P));
    [apply (preserves_reader (confined P)), ScanDirectory_world|].
  intros [tf [e|]]; repeat confined_step P.
Qed.

Lemma sync_until_conflicts_confined :
  (DryRun cfg = false → ∀ q, P (Join (TargetDir cfg) q)) →
  preserves (confined P) (sync_until_conflicts E fst).
Proof.
  intros HP. unfold sync_until_conflicts.
  apply (preserves_bind (confined P)); [apply emit_confined|]. intros _.
  apply (preserves_bind (confined P)); [apply emit_confined|]. intros _.
  apply (preserves_bind (confined P)); [apply CompareDirectories_confined|].
  intros [[toCopy toDelete] conflicts].
  apply (preserves_bind (confined P)); [apply emit_confined|]. intros _.
  apply (preserves_bind (confined P)); [by apply run_deletes_confined|]. intros _.
  apply (preserves_bind (confined P)); [by apply run_copies_confined|]. intros _.
  apply (preserves_ret (confined P)).
Qed.

Lemma ResolveConflict_dry_confined q choice :
  DryRun cfg = true →
  preserves (confined P) (ResolveConflict E fst q choice).
Proof.
  intros Hdry. unfold ResolveConflict. rewrite Hdry.
  repeat case_bool_decide.
  - apply CopyFile_confined. congruence.
  - repeat confined_step P.
  - repeat confined_step P.
  - confined_step P.
Qed.

Lemma run_conflicts_dry_confined l :
  DryRun cfg = true →
  preserves (confined P) (run_conflicts E fst l).
Proof.
  intros Hdry. unfold run_conflicts. destruct l as [|q l]; [confined_step P|].
  apply (preserves_bind (confined P)); [apply emit_confined|]. intros _.
  apply (preserves_for_each (confined P)). intros file.
  apply (preserves_bind (confined P)); [apply emit_confined|]. intros _.
  apply (preserves_bind (confined P)); [apply emit_confined|]. intros _.
  apply (preserves_bind (confined P)).
  { intros w. unfold ReadString. destruct (read_line (stdin w)). simpl.
    intros k _. split; [done|]. intros n Hn. by left. }
  intros choice.
  apply (preserves_bind (confined P)); [by apply ResolveConflict_dry_confined|].
  intros [e|]; confined_step P.
Qed.

Lemma RunSync_dry_confined :
  DryRun cfg = true → preserves (confined P) (RunSync E fst).
Proof.
  intros Hdry w. rewrite RunSync_phases. revert w.
  apply (preserves_bind (confined P)).
  { apply sync_until_conflicts_confined. congruence. }
  intros conflicts.
  apply (preserves_bind (confined P)); [by apply run_conflicts_dry_confined|]. intros _.
  repeat confined_step P.
Qed.

Lemma ticker_loop_confined ticks :
  preserves (confined P) (RunSync E fst) →
  preserves (confined P) (ticker_loop E fst ticks).
Proof.
  intros Hrun. induction ticks as [|n IH]; simpl; [confined_step P|].
  apply (preserves_bind (confined P)).
  { intros w k _. split; [done|]. intros m Hm. by left. }
  intros _.
  apply (preserves_bind (confined P)); [by apply (preserves_reader (confined P))|].
  intros now.
  apply (preserves_bind (confined P)); [apply emit_confined|]. intros _.
  apply (preserves_bind (confined P)); [apply Hrun|]. intros _. apply IH.
Qed.

Lemma ContinuousSync_confined ticks :
  preserves (confined P) (RunSync E fst) →
  preserves (confined P) (ContinuousSync E fst ticks).
Proof.
  intros Hrun. unfold ContinuousSync.
  apply (preserves_bind (confined P)); [apply emit_confined|]. intros _.
  destruct (_ <=? _); [confined_step P|].
  apply (preserves_bind (confined P)); [by apply ticker_loop_confined|]. intros _.
  confined_step P.
Qed.

End ConfinedCycle.

Lemma main_confined E P fl ticks :
  (∀ fst, DryRun (Config fst) = flag_dryrun fl →
          SyncMode (Config fst) = flag_mode fl →
          TargetDir (Config fst) = flag_target fl →
          preserves (confined P) (RunSync E fst)) →
  preserves (confined P) (main E fl ticks).
Proof.
  intros Hrun. unfold main, Stat, MkdirAll.
  destruct (_ || _); [repeat confined_step P|].
  apply (preserves_bind (confined P)); [apply (preserves_reader (confined P)), Lstat_world|].
  intros st. destruct (IsNotExist st); [repeat confined_step P|].
  apply (preserves_bind (confined P)); [apply (preserves_reader (confined P)), Lstat_world|].
  intros st'.
  apply (preserves_bind (confined P)).
  { destruct (IsNotExist st'); repeat confined_step P. }
  intros [e|]; [repeat confined_step P|].
  apply (preserves_bind (confined P)); [by apply Hrun|].
  intros [e|]; [repeat confined_step P|].
  destruct (flag_continuous fl); [|confined_step P].
  apply ContinuousSync_confined. by apply Hrun.
Qed.

(** ** The actions, one by one *)

Lemma Open_success p w w' :
  Open p w = (None, w') → w' = w ∧ is_Some (fs w !! p).
Proof.
  unfold Open. munfold. destruct (fs w !! p) as [[mode ? ?|mode ?]|]; [| |done].
  all: destruct (can_read mode); [|done]; intros [= <-]; eauto.
Qed.

Lemma Open_directory p w mode mtime :
  fs w !! p = Some (Directory mode mtime) → can_read mode = true → Open p w = (None, w).
Proof. intros H Hr. unfold Open. munfold. by rewrite H, Hr. Qed.

Lemma Create_success p w w' :
  Create p w = (None, w') →
  ∃ mode, w' = with_fs (<[p := File mode (clock w) []]> (fs w)) w.
Proof.
  unfold Create. munfold.
  destruct (fs w !! p) as [[mode ? ?|? ?]|]; [| |].
  - destruct (can_write mode); [|done]. intros [= <-]. by eexists.
  - done.
  - destruct (parent_check (fs w) p); [done|]. intros [= <-]. by eexists.
Qed.

Lemma io_Copy_success dst src w w' :
  io_Copy dst src w = (None, w') →
  ∃ smode smtime data dmode dmtime ddata,
    fs w !! src = Some (File smode smtime data)
    ∧ fs w !! dst = Some (File dmode dmtime ddata)
    ∧ w' = with_fs (<[dst := File dmode (clock w) data]> (fs w)) w.
Proof.
  unfold io_Copy, read_all. munfold.
  destruct (fs w !! src) as [[smode smtime data|? ?]|] eqn:Hs; [|done|done].
  destruct (fs w !! dst) as [[dmode dmtime ddata|? ?]|] eqn:Hd; [|done|done].
  intros [= <-]. by eexists _, _, _, _, _, _.
Qed.

Lemma io_Copy_directory dst src w mode mtime :
  fs w !! src = Some (Directory mode mtime) → io_Copy dst src w = (Some EISDIR, w).
Proof. intros H. unfold io_Copy, read_all. munfold. by rewrite H. Qed.

Lemma Remove_cases p w :
  match (Remove p w).1 with
  | None => is_Some (fs w !! p) ∧ (Remove p w).2 = with_fs (delete p (fs w)) w
  | Some _ => (Remove p w).2 = w
  end.
Proof.
  unfold Remove. munfold. destruct (fs w !! p) as [n|] eqn:Hp; [|done].
  destruct (parent_check (fs w) p); [done|].
  destruct n as [| mode mtime]; [by eauto|].
  destruct (entries (fs w) p); [by eauto|done].
Qed.

Lemma Remove_nonempty_error p w mode mtime c :
  fs w !! p = Some (Directory mode mtime) →
  is_Some (fs w !! c) → c ≠ [] → Dir c = p →
  (Remove p w).1 ≠ None.
Proof.
  intros Hp Hc Hne Hdir. unfold Remove. munfold. rewrite Hp.
  destruct (parent_check (fs w) p); [done|].
  destruct (entries (fs w) p) as [|c' l] eqn:He; [|done].
  assert (c ∈ entries (fs w) p) as Hin by (by apply elem_of_entries).
  rewrite He in Hin. by apply elem_of_nil in Hin.
Qed.

Lemma when_emit_fs b o w : fs (when b (emit o) w).2 = fs w.
Proof. by destruct b. Qed.

Lemma when_emit_result b o w : when b (emit o) w = (tt, (when b (emit o) w).2).
Proof. by destruct b. Qed.

Section Actions.
Variable fst : FileSyncTool.
Local Abbreviation cfg := (Config fst).

Lemma roots_differ_paths_differ p :
  SourceDir cfg ≠ TargetDir cfg → Join (SourceDir cfg) p ≠ Join (TargetDir cfg) p.
Proof. intros Hne Heq. apply Hne. by apply app_inv_tail in Heq. Qed.

Lemma CopyFile_success p w :
  DryRun cfg = false →
  Join (SourceDir cfg) p ≠ Join (TargetDir cfg) p →
  (CopyFile fst p w).1 = None →
  ∃ mode mtime data,
    fs w !! Join (SourceDir cfg) p = Some (File mode mtime data)
    ∧ fs (CopyFile fst p w).2 !! Join (SourceDir cfg) p = Some (File mode mtime data)
    ∧ fs (CopyFile fst p w).2 !! Join (TargetDir cfg) p = Some (File mode mtime data).
Proof.
  intros Hdry Hne. unfold CopyFile.
  set (S := Join (SourceDir cfg) p) in *. set (T := Join (TargetDir cfg) p) in *.
  clearbody S T. unfold mbind, M_bind.
  pose proof (mkdirAll_confined (λ _, False) (length (Dir T)) (Dir T) perm755 w) as Hmk.
  fold (MkdirAll (Dir T) perm755) in Hmk.
  destruct (MkdirAll (Dir T) perm755 w) as [[e|] w1]; [done|]. simpl in Hmk.
  rewrite Hdry.
  destruct (Open S w1) as [[e|] w1'] eqn:Hopen; [done|].
  apply Open_success in Hopen as [-> _].
  destruct (Create T w1) as [[e|] w2] eqn:Hcreate; [done|].
  apply Create_success in Hcreate as [tmode ->].
  destruct (io_Copy T S _) as [[e|] w3] eqn:Hcopy; [done|].
  apply io_Copy_success in Hcopy
    as (smode & smtime & data & dmode & dmtime & ddata & HS2 & HT2 & ->).
  simpl in HS2, HT2. rewrite lookup_insert_ne in HS2 by done.
  rewrite lookup_insert_eq in HT2. injection HT2 as <- <- <-.
  set (w3 := with_fs _ (with_fs _ w1)).
  assert (fs w3 !! S = Some (File smode smtime data)) as HS3
    by (unfold w3; simpl; by rewrite !lookup_insert_ne).
  assert (fs w3 !! T = Some (File tmode (clock w1) data)) as HT3
    by (unfold w3; simpl; by rewrite lookup_insert_eq).
  rewrite (Stat_some _ _ _ HS3). simpl.
  rewrite (Chmod_file _ _ _ _ _ _ HT3).
  set (w4 := with_fs _ w3).
  assert (fs w4 !! T = Some (File smode (clock w1) data)) as HT4
    by (unfold w4; simpl; by rewrite lookup_insert_eq).
  unfold Now. rewrite (Chtimes_file _ _ _ _ _ _ _ HT4).
  unfold mret, M_ret. rewrite when_emit_result. simpl. intros _.
  rewrite when_emit_fs. simpl.
  exists smode, smtime, data. split; [|split].
  - destruct (Hmk S (λ H, H)) as [_ Hnew].
    destruct (Hnew _ HS2) as [?|(? & ? & ?)]; done.
  - unfold w4, w3. simpl. by rewrite !lookup_insert_ne.
  - by rewrite lookup_insert_eq.
Qed.

End Actions.

Section ActionProperties.
Variable fst : FileSyncTool.
Local Abbreviation cfg := (Config fst).


(** X14: whether it succeeds or fails, live or dry, a copy touches the
    target path only: every other entry that exists is still there,
    unchanged, and whatever else is new is a directory (made on the way
    to the target). *)
Theorem copy_touches_only_its_target p w :
  confined (λ k, k = Join (TargetDir cfg) p) w (CopyFile fst p w).2.
Proof. by apply CopyFile_confined. Qed.

(** X15: in a live run a copy of a path that is a directory in the
    source always returns an error: directories are never copied as
    such. *)
Theorem live_copy_of_directory_fails p w mode mtime :
  DryRun cfg = false →
  fs w !! Join (SourceDir cfg) p = Some (Directory mode mtime) →
  (CopyFile fst p w).1 ≠ None.
Proof.
  intros Hdry HS Hnone.
  destruct (decide (Join (SourceDir cfg) p = Join (TargetDir cfg) p)) as [Heq|Hne].
  - pose proof HS as HT. rewrite Heq in HT. revert Hnone. unfold CopyFile.
    unfold mbind, M_bind.
    pose proof (MkdirAll_grows (Dir (Join (TargetDir cfg) p)) perm755 w) as Hg.
    destruct (MkdirAll _ _ w) as [[e|] w1]; [done|]. simpl in Hg. apply Hg in HT.
    rewrite Hdry.
    destruct (Open _ w1) as [[e|] w1'] eqn:Hopen; [done|].
    apply Open_success in Hopen as [-> _].
    by rewrite (Create_directory _ _ _ _ HT).
  - destruct (CopyFile_success fst p w Hdry Hne Hnone) as (m & t & d & HS' & _).
    congruence.
Qed.

(** X16: what such a copy leaves behind when the target path is free
    and its parent directory can be written: the error of reading a
    directory, and an empty regular file at the target path. *)
Theorem copy_of_directory_leaves_empty_file p w smode smtime dmode dmtime :
  DryRun cfg = false →
  p ≠ [] →
  fs w !! Join (SourceDir cfg) p = Some (Directory smode smtime) →
  can_read smode = true →
  fs w !! Join (TargetDir cfg) p = None →
  fs w !! Dir (Join (TargetDir cfg) p) = Some (Directory dmode dmtime) →
  can_write dmode = true →
  (CopyFile fst p w).1 = Some EISDIR
  ∧ fs (CopyFile fst p w).2
    = <[Join (TargetDir cfg) p := File (N.ldiff perm666 (umask w)) (clock w) []]> (fs w).
Proof.
  intros Hdry Hp HS Hr HT HD Hw. unfold CopyFile.
  set (S := Join (SourceDir cfg) p) in *. set (T := Join (TargetDir cfg) p) in *.
  assert (T ≠ []) as HTne by (unfold T, Join; intros [_ ?]%app_eq_nil; done).
  clearbody S T. unfold mbind, M_bind.
  rewrite (MkdirAll_existing _ _ _ _ _ HD), Hdry.
  rewrite (Open_directory _ _ _ _ HS Hr).
  rewrite (Create_new _ _ HT) by (by eapply parent_check_ok).
  rewrite (io_Copy_directory _ _ _ smode smtime); [done|].
  simpl. rewrite lookup_insert_ne; [done|]. intros ->. congruence.
Qed.

(** X17: a deletion removes one path or nothing.  In a dry run it
    returns no error and changes nothing; in a live run, when it returns
    no error the target path existed and is the one entry removed, and
    when it returns an error the file system is as it was. *)
Theorem deletion_removes_one_path_or_nothing p w :
  (DryRun cfg = true →
   (DeleteFile fst p w).1 = None ∧ fs (DeleteFile fst p w).2 = fs w)
  ∧ (DryRun cfg = false →
     match (DeleteFile fst p w).1 with
     | None => is_Some (fs w !! Join (TargetDir cfg) p)
               ∧ fs (DeleteFile fst p w).2 = delete (Join (TargetDir cfg) p) (fs w)
     | Some _ => fs (DeleteFile fst p w).2 = fs w
     end).
Proof.
  unfold DeleteFile. split; intros ->.
  - unfold mbind, M_bind. rewrite when_emit_result. simpl. by rewrite when_emit_fs.
  - unfold mbind, M_bind.
    pose proof (Remove_cases (Join (TargetDir cfg) p) w) as Hr.
    destruct (Remove _ w) as [[e|] w1]; simpl in *; [by rewrite Hr|].
    rewrite when_emit_result. simpl. rewrite when_emit_fs.
    destruct Hr as [Hsome ->]. done.
Qed.

(** X18: a deletion is not recursive.  In a live run, a target
    directory that still holds an entry is not removed: the deletion
    returns an error and the file system is as it was. *)
Theorem directory_with_entries_is_not_deleted p w mode mtime c :
  DryRun cfg = false →
  fs w !! Join (TargetDir cfg) p = Some (Directory mode mtime) →
  is_Some (fs w !! c) → c ≠ [] → Dir c = Join (TargetDir cfg) p →
  (DeleteFile fst p w).1 ≠ None ∧ fs (DeleteFile fst p w).2 = fs w.
Proof.
  intros Hdry HT Hc Hne Hdir. unfold DeleteFile. rewrite Hdry. unfold mbind, M_bind.
  pose proof (Remove_nonempty_error _ w _ _ c HT Hc Hne Hdir) as Herr.
  pose proof (Remove_nonempty _ w _ _ c HT Hc Hne Hdir) as Hw.
  destruct (Remove _ w) as [[e|] w1]; simpl in *; [|done]. by subst w1.
Qed.

End ActionProperties.

Section ResolveProperties.
Variable E : Externals.
Variable fst : FileSyncTool.
Local Abbreviation cfg := (Config fst).

Lemma for_each_invariant {A} (I : World → Prop) (l : list A) (body : A → M unit) w :
  (∀ x w', I w' → I (body x w').2) → I w → I (for_each l body w).2.
Proof.
  intros Hbody. revert w. induction l as [|x l IH]; intros w Hw; [done|].
  rewrite for_each_cons. by apply IH, Hbody.
Qed.

Lemma ReadString_at_end w :
  stdin w = EmptyString → (ReadString w).1 = EmptyString ∧ (ReadString w).2 = w.
Proof.
  intros Hs. unfold ReadString. rewrite Hs. simpl. split; [done|].
  destruct w. simpl in *. by subst.
Qed.

(** X19: an answer that is none of the three choices resolves nothing
    and is no error.  At the end of standard input the prompt reads the
    empty answer, so every conflict of the cycle is passed over and the
    cycle ends with the file system as the copy loop left it. *)
Theorem conflicts_at_end_of_input_are_skipped w :
  stdin w = EmptyString →
  (∀ p choice w',
     choice ≠ "source" → choice ≠ "target" → choice ≠ "both" →
     ResolveConflict E fst p choice w' = (None, w'))
  ∧ fs (RunSync E fst w).2 = fs (sync_until_conflicts E fst w).2
  ∧ stdin (RunSync E fst w).2 = EmptyString.
Proof.
  intros Hin. split.
  { intros p choice w' H1 H2 H3. unfold ResolveConflict.
    by rewrite !bool_decide_eq_false_2. }
  assert (∀ l w', stdin w' = EmptyString →
            (λ w0, fs w0 = fs w' ∧ stdin w0 = EmptyString)
              (run_conflicts E fst l w').2) as Hloop.
  { intros l w' Hw'. unfold run_conflicts. destruct l as [|q l]; [done|].
    unfold mbind at 1, M_bind at 1.
    change (emit PrintConflictsHeader w')
      with (tt, with_out (out w' ++ [PrintConflictsHeader]) w').
    cbv beta iota.
    apply (for_each_invariant
             (λ w0, fs w0 = fs w' ∧ stdin w0 = EmptyString)); [|done].
    intros file w0 [Hf0 Hs0]. unfold mbind, M_bind, emit. simpl.
    match goal with |- context [ReadString ?w1] =>
      destruct (ReadString_at_end w1 Hs0) as [Hl Hw1];
      destruct (ReadString w1) as [line w2] end.
    simpl in Hl, Hw1. subst line w2. done. }
  simpl in Hloop.
  rewrite RunSync_phases. unfold mbind, M_bind.
  pose proof (sync_until_conflicts_stdin E fst w) as Hs. unfold same_stdin in Hs.
  destruct (sync_until_conflicts E fst w) as [conflicts w1]. simpl in *.
  rewrite Hin in Hs. destruct (Hloop conflicts w1 Hs) as [Hf Hs'].
  destruct (run_conflicts E fst conflicts w1) as [[] w2]. simpl in *. done.
Qed.

(** X20: the choice [target], in a live run that returns no error: the
    target is a regular file, it is left as it is, and the source path
    now holds the target's bytes, stamped with the current time.  The
    target's mode and modification time are not carried over, and
    nothing else changes. *)
Theorem keep_target_copies_back p w :
  DryRun cfg = false →
  SourceDir cfg ≠ TargetDir cfg →
  (ResolveConflict E fst p "target" w).1 = None →
  ∃ tmode tmtime tdata smode,
    fs w !! Join (TargetDir cfg) p = Some (File tmode tmtime tdata)
    ∧ fs (ResolveConflict E fst p "target" w).2
      = <[Join (SourceDir cfg) p := File smode (clock w) tdata]> (fs w).
Proof.
  intros Hdry Hne. pose proof (roots_differ_paths_differ fst p Hne) as HST.
  unfold ResolveConflict.
  set (S := Join (SourceDir cfg) p) in *. set (T := Join (TargetDir cfg) p) in *.
  clearbody S T.
  rewrite bool_decide_eq_false_2 by done. rewrite bool_decide_eq_true_2 by done.
  rewrite Hdry. unfold mbind, M_bind.
  destruct (Open T w) as [[e|] w1] eqn:Hopen; [done|].
  apply Open_success in Hopen as [-> _].
  destruct (Create S w) as [[e|] w2] eqn:Hcreate; [done|].
  apply Create_success in Hcreate as [smode ->].
  destruct (io_Copy S T _) as [[e|] w3] eqn:Hcopy; [done|].
  apply io_Copy_success in Hcopy
    as (tmode & tmtime & tdata & dmode & dmtime & ddata & HT & HS & ->).
  simpl in HT, HS. rewrite lookup_insert_ne in HT by done.
  rewrite lookup_insert_eq in HS. injection HS as <- <- <-.
  rewrite when_emit_result. simpl. intros _. rewrite when_emit_fs. simpl.
  exists tmode, tmtime, tdata, smode. split; [done|]. by rewrite insert_insert_eq.
Qed.

End ResolveProperties.

(** ** The cycle and the program as a whole *)

Lemma sync_until_conflicts_one_way E fst w :
  SyncMode (Config fst) ≠ "bidirectional" →
  (sync_until_conflicts E fst w).1 = [].
Proof.
  intros Hmode. unfold sync_until_conflicts. unfold mbind, M_bind.
  destruct (emit _ w) as [[] w1].
  destruct (emit _ w1) as [[] w2].
  destruct (CompareDirectories_cases E fst w2) as (plan & w3 & -> & _ & Hplan).
  destruct plan as [[toCopy toDelete] conflicts].
  destruct (emit _ w3) as [[] w4].
  destruct (run_deletes fst toDelete w4) as [[] w5].
  destruct (run_copies fst toCopy w5) as [[] w6]. simpl.
  destruct Hplan as [[= _ _ ->]|(sf & tf & _ & _ & Heq)]; [done|].
  unfold compare_snapshots in Heq. rewrite bool_decide_eq_false_2 in Heq by done.
  by injection Heq as _ _ ->.
Qed.

Lemma RunSync_one_way E fst w :
  SyncMode (Config fst) ≠ "bidirectional" →
  (RunSync E fst w).2
  = with_out (out (sync_until_conflicts E fst w).2 ++ [PrintDone])
      (sync_until_conflicts E fst w).2.
Proof.
  intros Hmode. rewrite RunSync_phases. unfold mbind, M_bind.
  pose proof (sync_until_conflicts_one_way E fst w Hmode) as Hc.
  destruct (sync_until_conflicts E fst w) as [conflicts w1]. simpl in Hc. by subst.
Qed.

Lemma ticker_loop_stdin E fst ticks :
  preserves same_stdin (RunSync E fst) →
  preserves same_stdin (ticker_loop E fst ticks).
Proof.
  intros Hrun. induction ticks as [|n IH]; simpl; [apply (preserves_ret same_stdin)|].
  apply (preserves_bind same_stdin); [done|]. intros _.
  apply (preserves_bind same_stdin); [by apply (preserves_reader same_stdin)|].
  intros now.
  apply (preserves_bind same_stdin); [apply emit_stdin|]. intros _.
  apply (preserves_bind same_stdin); [apply Hrun|]. intros _. apply IH.
Qed.

Lemma main_stdin E fl ticks :
  (∀ fst, SyncMode (Config fst) = flag_mode fl →
          preserves same_stdin (RunSync E fst)) →
  preserves same_stdin (main E fl ticks).
Proof.
  intros Hrun. unfold main, Stat, MkdirAll.
  destruct (_ || _); [repeat stdin_step|].
  apply (preserves_bind same_stdin); [apply (preserves_reader same_stdin), Lstat_world|].
  intros st. destruct (IsNotExist st); [repeat stdin_step|].
  apply (preserves_bind same_stdin); [apply (preserves_reader same_stdin), Lstat_world|].
  intros st'.
  apply (preserves_bind same_stdin).
  { destruct (IsNotExist st'); repeat stdin_step. }
  intros [e|]; [repeat stdin_step|].
  apply (preserves_bind same_stdin); [by apply Hrun|].
  intros [e|]; [repeat stdin_step|].
  destruct (flag_continuous fl); [|stdin_step].
  unfold ContinuousSync.
  apply (preserves_bind same_stdin); [apply emit_stdin|]. intros _.
  destruct (_ <=? _); [stdin_step|].
  apply (preserves_bind same_stdin); [|intros _; stdin_step].
  apply ticker_loop_stdin. by apply Hrun.
Qed.

(** X22: a dry run changes and removes nothing that exists, and creates
    no file: all it may add to the file system is directories.  This
    holds for a cycle, whatever is typed at the conflict prompts, and
    for the whole program, the creation of the target root and the
    continuous mode included. *)
Theorem dry_run_only_adds_directories E :
  (∀ fst w, DryRun (Config fst) = true → adds_directories w (RunSync E fst w).2)
  ∧ (∀ fl ticks w, flag_dryrun fl = true → adds_directories w (main E fl ticks w).2).
Proof.
  split.
  - intros fst w Hdry. by apply RunSync_dry_confined.
  - intros fl ticks w Hdry. apply main_confined.
    intros fst Hd _ _. apply RunSync_dry_confined. congruence.
Qed.

(** X23: only the mode [bidirectional] ever prompts.  With any other
    mode string, a cycle finds no conflict and reads nothing from
    standard input, and neither does the whole program, in continuous
    operation too. *)
Theorem one_way_sync_reads_no_input E :
  (∀ fst w, SyncMode (Config fst) ≠ "bidirectional" →
            (sync_until_conflicts E fst w).1 = []
            ∧ stdin (RunSync E fst w).2 = stdin w)
  ∧ (∀ fl ticks w, flag_mode fl ≠ "bidirectional" →
                   stdin (main E fl ticks w).2 = stdin w).
Proof.
  assert (∀ fst, SyncMode (Config fst) ≠ "bidirectional" →
                 preserves same_stdin (RunSync E fst)) as Hrun.
  { intros fst Hmode w. unfold same_stdin.
    by rewrite RunSync_stdin, sync_until_conflicts_one_way. }
  split.
  - intros fst w Hmode. split; [by apply sync_until_conflicts_one_way|].
    by apply Hrun.
  - intros fl ticks w Hmode. apply main_stdin.
    intros fst Hm. apply Hrun. congruence.
Qed.

(** X24: the deletions and the copies stay below the target root.  Up
    to the conflict loop, in every mode, a cycle changes and removes
    nothing outside the tree of the target, and creates no file there;
    with a mode other than [bidirectional] this holds for the whole
    cycle. *)
Theorem one_way_cycle_stays_in_target E fst w :
  keeps_outside (TargetDir (Config fst)) w (sync_until_conflicts E fst w).2
  ∧ (SyncMode (Config fst) ≠ "bidirectional" →
     keeps_outside (TargetDir (Config fst)) w (RunSync E fst w).2).
Proof.
  assert (keeps_outside (TargetDir (Config fst)) w (sync_until_conflicts E fst w).2) as H.
  { apply sync_until_conflicts_confined. intros _ q. by apply prefix_app_r. }
  split; [done|]. intros Hmode. by rewrite RunSync_one_way.
Qed.


Lemma mkdirAll_existing depth p perm w mode mtime :
  fs w !! p = Some (Directory mode mtime) → mkdirAll depth p perm w = (None, w).
Proof. intros H. destruct depth; simpl; munfold; by rewrite H. Qed.

Lemma MkdirAll_new p perm w dmode dmtime :
  p ≠ [] →
  fs w !! p = None →
  fs w !! Dir p = Some (Directory dmode dmtime) →
  can_write dmode = true →
  MkdirAll p perm w
  = (None, with_fs (<[p := Directory (N.ldiff perm (umask w)) (clock w)]> (fs w)) w).
Proof.
  intros Hp Hnone HD Hw. unfold MkdirAll.
  destruct p as [|c p]; [done|]. cbn [length mkdirAll].
  unfold mbind at 1, M_bind at 1, get_fs at 1. rewrite Hnone.
  unfold mbind at 1, M_bind at 1.
  rewrite (mkdirAll_existing _ _ _ _ _ _ HD).
  unfold Mkdir. munfold. rewrite Hnone.
  by rewrite (parent_check_ok _ _ _ _ Hp HD Hw).
Qed.

(** X26: [main] creates a target directory that is missing before it
    runs the first cycle, and does so in a dry run too: with [-dryrun],
    a source that exists and a target whose parent directory can be
    written, the target root is a directory when [main] is done. *)
Theorem dry_run_still_creates_target_root E fl ticks w dmode dmtime :
  flag_help fl = false →
  flag_source fl ≠ [] →
  flag_target fl ≠ [] →
  flag_dryrun fl = true →
  is_Some (fs w !! flag_source fl) →
  fs w !! flag_target fl = None →
  fs w !! Dir (flag_target fl) = Some (Directory dmode dmtime) →
  can_write dmode = true →
  fs (main E fl ticks w).2 !! flag_target fl
  = Some (Directory (N.ldiff perm755 (umask w)) (clock w)).
Proof.
  intros Hhelp Hsrc Htgt Hdry [ns Hns] Hnone HD Hw.
  unfold main. rewrite Hhelp, !bool_decide_eq_false_2 by done. simpl.
  unfold mbind at 1, M_bind at 1. rewrite (Stat_some _ _ _ Hns). simpl.
  unfold mbind at 1, M_bind at 1.
  assert (Stat (flag_target fl) w = (Err ENOENT, w)) as ->
    by (unfold Stat, Lstat; munfold; by rewrite Hnone).
  simpl. unfold mbind at 1, M_bind at 1. unfold mbind at 1, M_bind at 1.
  unfold emit at 1.
  set (w0 := with_out _ w).
  rewrite (MkdirAll_new (flag_target fl) perm755 w0 dmode dmtime Htgt Hnone HD Hw).
  set (w1 := with_fs _ w0).
  assert (fs w1 !! flag_target fl
          = Some (Directory (N.ldiff perm755 (umask w)) (clock w))) as Hroot
    by (unfold w1; simpl; by rewrite lookup_insert_eq).
  clearbody w1. clear w0.
  match goal with |- context [RunSync E ?t] => set (tool := t) end.
  assert (∀ A (m : M A), preserves (confined (λ _, False)) m →
            fs (m w1).2 !! flag_target fl
            = Some (Directory (N.ldiff perm755 (umask w)) (clock w))) as Hkeep.
  { intros A m Hm. by apply (Hm w1 (flag_target fl) (λ H, H)). }
  apply Hkeep.
  assert (preserves (confined (λ _, False)) (RunSync E tool)) as Hrun
    by (by apply RunSync_dry_confined).
  apply (preserves_bind (confined (λ _, False))); [done|].
  intros [e|]; [repeat confined_step (λ _ : path, False)|].
  destruct (flag_continuous fl); [|confined_step (λ _ : path, False)].
  by apply ContinuousSync_confined.
Qed.

(** Instances on the example trees. *)


Lemma live_copy_of_directory_fails_witness :
  (CopyFile (example_tool "unidirectional" false) ["d"]
     (example_world nested_fs EmptyString)).1 ≠ None.
Proof.
  apply (live_copy_of_directory_fails (example_tool "unidirectional" false) ["d"]
           (example_world nested_fs EmptyString) 493%N 0).
  - reflexivity.
  - reflexivity.
Defined.

Lemma copy_of_directory_leaves_empty_file_witness :
  (CopyFile (example_tool "unidirectional" false) ["d"]
     (example_world nested_fs EmptyString)).1 = Some EISDIR
  ∧ fs (CopyFile (example_tool "unidirectional" false) ["d"]
          (example_world nested_fs EmptyString)).2
    = <[Join ["dst"] ["d"] := File (N.ldiff perm666 18) (100 * Time.Second) []]>
        (fs (example_world nested_fs EmptyString)).
Proof.
  apply (copy_of_directory_leaves_empty_file (example_tool "unidirectional" false) ["d"]
           (example_world nested_fs EmptyString) 493%N 0 493%N 0).
  - reflexivity.
  - discriminate.
  - reflexivity.
  - reflexivity.
  - reflexivity.
  - reflexivity.
  - reflexivity.
Defined.

Lemma deletion_removes_one_path_or_nothing_witness :
  is_Some (fs (example_world no_source_fs EmptyString) !! Join ["dst"] ["b.txt"])
  ∧ fs (DeleteFile (example_tool "unidirectional" false) ["b.txt"]
          (example_world no_source_fs EmptyString)).2
    = delete (Join ["dst"] ["b.txt"]) (fs (example_world no_source_fs EmptyString)).
Proof.
  apply (proj2 (deletion_removes_one_path_or_nothing
                  (example_tool "unidirectional" false) ["b.txt"]
                  (example_world no_source_fs EmptyString))).
  reflexivity.
Defined.

Lemma directory_with_entries_is_not_deleted_witness :
  (DeleteFile (example_tool "unidirectional" false) ["old"]
     (example_world stale_tree_fs EmptyString)).1 ≠ None
  ∧ fs (DeleteFile (example_tool "unidirectional" false) ["old"]
          (example_world stale_tree_fs EmptyString)).2
    = fs (example_world stale_tree_fs EmptyString).
Proof.
  apply (directory_with_entries_is_not_deleted (example_tool "unidirectional" false)
           ["old"] (example_world stale_tree_fs EmptyString) 493%N 0
           ["dst"; "old"; "x.txt"]).
  - reflexivity.
  - reflexivity.
  - eexists. reflexivity.
  - discriminate.
  - reflexivity.
Defined.

Lemma conflicts_at_end_of_input_are_skipped_witness :
  (∀ p choice w',
     choice ≠ "source" → choice ≠ "target" → choice ≠ "both" →
     ResolveConflict example_externals (example_tool "bidirectional" false) p choice w'
     = (None, w'))
  ∧ fs (RunSync example_externals (example_tool "bidirectional" false)
          (example_world conflict_fs EmptyString)).2
    = fs (sync_until_conflicts example_externals (example_tool "bidirectional" false)
            (example_world conflict_fs EmptyString)).2
  ∧ stdin (RunSync example_externals (example_tool "bidirectional" false)
             (example_world conflict_fs EmptyString)).2 = EmptyString.
Proof.
  apply (conflicts_at_end_of_input_are_skipped example_externals
           (example_tool "bidirectional" false)
           (example_world conflict_fs EmptyString)).
  reflexivity.
Defined.

Lemma keep_target_copies_back_witness :
  ∃ tmode tmtime tdata smode,
    fs (example_world conflict_fs EmptyString) !! Join ["dst"] ["c.txt"]
    = Some (File tmode tmtime tdata)
    ∧ fs (ResolveConflict example_externals (example_tool "bidirectional" false)
            ["c.txt"] "target" (example_world conflict_fs EmptyString)).2
      = <[Join ["src"] ["c.txt"] := File smode (100 * Time.Second) tdata]>
          (fs (example_world conflict_fs EmptyString)).
Proof.
  apply (keep_target_copies_back example_externals (example_tool "bidirectional" false)
           ["c.txt"] (example_world conflict_fs EmptyString)).
  - reflexivity.
  - discriminate.
  - vm_compute. reflexivity.
Defined.

Lemma dry_run_only_adds_directories_witness :
  adds_directories (example_world nested_fs EmptyString)
    (RunSync example_externals (example_tool "unidirectional" true)
       (example_world nested_fs EmptyString)).2
  ∧ adds_directories (example_world no_target_fs EmptyString)
      (main example_externals dry_flags 0 (example_world no_target_fs EmptyString)).2.
Proof.
  split.
  - apply (proj1 (dry_run_only_adds_directories example_externals)
             (example_tool "unidirectional" true) (example_world nested_fs EmptyString)).
    reflexivity.
  - apply (proj2 (dry_run_only_adds_directories example_externals)
             dry_flags 0%nat (example_world no_target_fs EmptyString)).
    reflexivity.
Defined.

Lemma one_way_sync_reads_no_input_witness :
  ((sync_until_conflicts example_externals (example_tool "unidirectional" false)
      (example_world conflict_fs (typed "both"))).1 = []
   ∧ stdin (RunSync example_externals (example_tool "unidirectional" false)
              (example_world conflict_fs (typed "both"))).2
     = stdin (example_world conflict_fs (typed "both")))
  ∧ stdin (main example_externals dry_flags 1
             (example_world conflict_fs (typed "both"))).2
    = stdin (example_world conflict_fs (typed "both")).
Proof.
  split.
  - apply (proj1 (one_way_sync_reads_no_input example_externals)
             (example_tool "unidirectional" false)
             (example_world conflict_fs (typed "both"))).
    discriminate.
  - apply (proj2 (one_way_sync_reads_no_input example_externals)
             dry_flags 1%nat (example_world conflict_fs (typed "both"))).
    discriminate.
Defined.

Lemma one_way_cycle_stays_in_target_witness :
  keeps_outside ["dst"] (example_world conflict_fs EmptyString)
    (RunSync example_externals (example_tool "unidirectional" false)
       (example_world conflict_fs EmptyString)).2.
Proof.
  apply (proj2 (one_way_cycle_stays_in_target example_externals
                  (example_tool "unidirectional" false)
                  (example_world conflict_fs EmptyString))).
  discriminate.
Defined.


Lemma dry_run_still_creates_target_root_witness :
  fs (main example_externals dry_flags 0 (example_world no_target_fs EmptyString)).2
    !! ["dst"]
  = Some (Directory (N.ldiff perm755 18) (100 * Time.Second)).
Proof.
  apply (dry_run_still_creates_target_root example_externals dry_flags 0
           (example_world no_target_fs EmptyString) 493%N 0).
  - reflexivity.
  - discriminate.
  - discriminate.
  - reflexivity.
  - eexists. reflexivity.
  - reflexivity.
  - reflexivity.
  - reflexivity.
Defined.

(** ** The plan is carried out *)

#[global] Instance stays_absent_preorder k : PreOrder (stays_absent k).
Proof.
  split; [intros w Hk; exact Hk|]. intros w1 w2 w3 H12 H23 Hk. by apply H23, H12.
Qed.

Lemma preserves_for_each_in {A} (R : relation World) `{!PreOrder R}
    (l : list A) (body : A → M unit) :
  (∀ x, x ∈ l → preserves R (body x)) → preserves R (for_each l body).
Proof.
  induction l as [|x l IH]; intros Hb; simpl; [apply (preserves_ret R)|].
  apply (preserves_bind R); [apply Hb; by left|]. intros _.
  apply IH. intros y Hy. apply Hb. by right.
Qed.

Lemma Dir_prefix (p : path) : Dir p `prefix_of` p.
Proof.
  unfold Dir. destruct p as [|c p] using rev_ind; [done|].
  rewrite removelast_last. by apply prefix_app_r.
Qed.


Lemma emit_absent k o : preserves (stays_absent k) (emit o).
Proof. intros w Hk. exact Hk. Qed.

Lemma Mkdir_absent k p perm : k ≠ p → preserves (stays_absent k) (Mkdir p perm).
Proof.
  intros Hk. unfold Mkdir. intros w. munfold.
  repeat case_match; simplify_eq/=; try done.
  intros Hnone. simpl. by rewrite lookup_insert_ne.
Qed.

Lemma mkdirAll_absent k depth p perm :
  ¬ k `prefix_of` p → preserves (stays_absent k) (mkdirAll depth p perm).
Proof.
  revert p. induction depth as [|depth IH]; intros p Hk; simpl.
  - apply (preserves_bind (stays_absent k));
      [by apply (preserves_reader (stays_absent k))|].
    intros f.
    repeat case_match; try apply (preserves_ret (stays_absent k)).
    apply Mkdir_absent. by intros ->.
  - apply (preserves_bind (stays_absent k));
      [by apply (preserves_reader (stays_absent k))|].
    intros f.
    repeat case_match; try apply (preserves_ret (stays_absent k)).
    apply (preserves_bind (stays_absent k)).
    { apply IH. intros Hpre. apply Hk. etrans; [exact Hpre|apply Dir_prefix]. }
    intros [e|]; [apply (preserves_ret (stays_absent k))|].
    apply Mkdir_absent. by intros ->.
Qed.

Lemma Create_absent k p : k ≠ p → preserves (stays_absent k) (Create p).
Proof.
  intros Hk. unfold Create. intros w. munfold.
  repeat case_match; simplify_eq/=; try done.
  all: intros Hnone; simpl; by rewrite lookup_insert_ne.
Qed.

Lemma io_Copy_absent k dst src : preserves (stays_absent k) (io_Copy dst src).
Proof.
  unfold io_Copy, read_all. intros w. munfold.
  repeat case_match; simplify_eq/=; try done.
  intros Hnone. simpl. rewrite lookup_insert_ne; [done|]. intros ->. congruence.
Qed.

Lemma Chmod_absent k p mode : preserves (stays_absent k) (Chmod p mode).
Proof.
  unfold Chmod. intros w. munfold.
  repeat case_match; simplify_eq/=; try done.
  all: intros Hnone; simpl; rewrite lookup_insert_ne; [done|]; intros ->; congruence.
Qed.

Lemma Chtimes_absent k p a m : preserves (stays_absent k) (Chtimes p a m).
Proof.
  unfold Chtimes. intros w. munfold.
  repeat case_match; simplify_eq/=; try done.
  all: intros Hnone; simpl; rewrite lookup_insert_ne; [done|]; intros ->; congruence.
Qed.

Lemma Remove_absent k p : preserves (stays_absent k) (Remove p).
Proof.
  unfold Remove. intros w. munfold.
  repeat case_match; simplify_eq/=; try done.
  all: intros Hnone; simpl; by apply lookup_delete_None; right.
Qed.

Ltac absent_step k :=
  first
    [ apply (preserves_ret (stays_absent k))
    | apply (preserves_when (stays_absent k)), emit_absent
    | apply emit_absent
    | apply io_Copy_absent | apply Chmod_absent | apply Chtimes_absent
    | apply Remove_absent
    | apply Create_absent; solve [auto]
    | apply (preserves_reader (stays_absent k)), Open_world
    | apply (preserves_reader (stays_absent k)), Lstat_world
    | by apply (preserves_reader (stays_absent k))
    | apply (preserves_bind (stays_absent k)); [|intros ?]
    | match goal with |- preserves _ (match ?x with _ => _ end) => destruct x end
    | match goal with |- preserves _ (if ?x then _ else _) => destruct x end ].

Lemma reachable_app (f : gmap path node) root p r :
  r ≠ [] → reachable f root (p ++ r) = true →
  reachable f root p = true ∧ listable f (root ++ p) = true.
Proof.
  intros Hr Hreach. unfold reachable in *. rewrite forallb_forall in Hreach. split.
  - apply forallb_forall. intros i Hi%in_seq.
    specialize (Hreach i). rewrite take_app_le in Hreach by lia.
    apply Hreach, in_seq. rewrite length_app. lia.
  - specialize (Hreach (length p)). rewrite take_app_length in Hreach.
    apply Hreach, in_seq. rewrite length_app. destruct r; [done|]. simpl. lia.
Qed.


Section Carried.
Variable E : Externals.
Variable fst : FileSyncTool.
Local Abbreviation cfg := (Config fst).

Lemma scan_visit_fs_only dirPath files ev w w' :
  fs w = fs w' →
  (scan_visit E fst dirPath files ev w).1 = (scan_visit E fst dirPath files ev w').1.
Proof.
  intros Hfs. destruct ev as [p info|p e]; [|done]. unfold scan_visit.
  case_bool_decide; [done|]. destruct (negb _); [done|]. munfold.
  destruct (negb _ && _); [|done].
  rewrite !CalculateChecksum_cases, Hfs.
  destruct (fs w' !! p) as [[m ? d|m ?]|]; [destruct (can_read m)..|]; done.
Qed.

Lemma scan_walk_fs_only dirPath evs files w w' :
  fs w = fs w' →
  (scan_walk E fst dirPath evs files w).1 = (scan_walk E fst dirPath evs files w').1.
Proof.
  intros Hfs. revert files. induction evs as [|ev evs IH]; intros files; [done|].
  rewrite !scan_walk_cons.
  pose proof (scan_visit_fs_only dirPath files ev w w' Hfs) as Hv.
  pose proof (scan_visit_world E fst dirPath files ev w) as H1.
  pose proof (scan_visit_world E fst dirPath files ev w') as H2.
  destruct (scan_visit E fst dirPath files ev w) as [[f1 e1] w1].
  destruct (scan_visit E fst dirPath files ev w') as [[f2 e2] w2].
  simpl in *. injection Hv as -> ->. subst w1 w2. destruct e2; [done|]. apply IH.
Qed.

Lemma ScanDirectory_fs_only root w w' :
  fs w = fs w' →
  (ScanDirectory E fst root w).1 = (ScanDirectory E fst root w').1.
Proof.
  intros Hfs. unfold ScanDirectory. munfold. rewrite Hfs.
  by apply scan_walk_fs_only.
Qed.

Lemma CompareDirectories_fs_only w w' :
  fs w = fs w' →
  (CompareDirectories E fst w).1 = (CompareDirectories E fst w').1.
Proof.
  intros Hfs. unfold CompareDirectories. unfold mbind, M_bind.
  pose proof (ScanDirectory_fs_only (SourceDir cfg) w w' Hfs) as Hs.
  pose proof (ScanDirectory_world E fst (SourceDir cfg) w) as H1.
  pose proof (ScanDirectory_world E fst (SourceDir cfg) w') as H2.
  destruct (ScanDirectory E fst (SourceDir cfg) w) as [[sf e1] w1].
  destruct (ScanDirectory E fst (SourceDir cfg) w') as [[sf' e1'] w1'].
  simpl in *. injection Hs as -> ->. subst w1 w1'. destruct e1'; [done|].
  pose proof (ScanDirectory_fs_only (TargetDir cfg) w w' Hfs) as Ht.
  pose proof (ScanDirectory_world E fst (TargetDir cfg) w) as H3.
  pose proof (ScanDirectory_world E fst (TargetDir cfg) w') as H4.
  destruct (ScanDirectory E fst (TargetDir cfg) w) as [[tf e2] w2].
  destruct (ScanDirectory E fst (TargetDir cfg) w') as [[tf' e2'] w2'].
  simpl in *. injection Ht as -> ->. subst w2 w2'. by destruct e2'.
Qed.

(** The cycle up to the conflict loop, as the two loops run on the plan
    of [CompareDirectories]. *)
Lemma sync_until_conflicts_plan w :
  ∃ w0, fs w0 = fs w
    ∧ (sync_until_conflicts E fst w).1 = plan_conflicts (CompareDirectories E fst w).1
    ∧ (sync_until_conflicts E fst w).2
      = (run_copies fst (plan_toCopy (CompareDirectories E fst w).1)
           (run_deletes fst (plan_toDelete (CompareDirectories E fst w).1) w0).2).2.
Proof.
  unfold sync_until_conflicts. unfold mbind, M_bind.
  destruct (emit (PrintStart _ _) w) as [[] w1] eqn:H1.
  assert (fs w1 = fs w) as Hfs1 by (by injection H1 as <-).
  destruct (emit (PrintMode _) w1) as [[] w2] eqn:H2.
  assert (fs w2 = fs w) as Hfs2 by (injection H2 as <-; done).
  rewrite <- (CompareDirectories_fs_only w2 w Hfs2).
  destruct (CompareDirectories_cases E fst w2) as (plan & w3 & Hcmp & Hfs3 & _).
  rewrite Hcmp. destruct plan as [[toCopy toDelete] conflicts].
  destruct (emit (PrintDetected _ _ _) w3) as [[] w4] eqn:H4.
  assert (fs w4 = fs w) as Hfs4 by (injection H4 as <-; simpl; congruence).
  exists w4. split; [done|]. unfold plan_toCopy, plan_toDelete, plan_conflicts. simpl.
  destruct (run_deletes fst toDelete w4) as [[] w5]. simpl.
  by destruct (run_copies fst toCopy w5) as [[] w6].
Qed.

Lemma CopyFile_absent k q :
  ¬ k `prefix_of` Join (TargetDir cfg) q →
  preserves (stays_absent k) (CopyFile fst q).
Proof.
  intros Hk. unfold CopyFile, MkdirAll, Stat.
  assert (k ≠ Join (TargetDir cfg) q) as Hne by (by intros ->).
  apply (preserves_bind (stays_absent k)).
  { apply mkdirAll_absent. intros Hpre. apply Hk.
    etrans; [exact Hpre|apply Dir_prefix]. }
  intros [e|]; [apply (preserves_ret (stays_absent k))|].
  repeat absent_step k.
Qed.

Lemma DeleteFile_absent k q : preserves (stays_absent k) (DeleteFile fst q).
Proof. unfold DeleteFile. repeat absent_step k. Qed.

Lemma run_deletes_absent k l : preserves (stays_absent k) (run_deletes fst l).
Proof.
  apply (preserves_for_each (stays_absent k)). intros q.
  apply (preserves_bind (stays_absent k)); [apply DeleteFile_absent|].
  intros [e|]; absent_step k.
Qed.

Lemma run_copies_absent k l :
  (∀ q, q ∈ l → ¬ k `prefix_of` Join (TargetDir cfg) q) →
  preserves (stays_absent k) (run_copies fst l).
Proof.
  intros Hl. apply (preserves_for_each_in (stays_absent k)). intros q Hq.
  apply (preserves_bind (stays_absent k)); [by apply CopyFile_absent, Hl|].
  intros [e|]; absent_step k.
Qed.

End Carried.

Lemma Remove_file p w mode mtime data :
  fs w !! p = Some (File mode mtime data) →
  parent_check (fs w) p = None →
  Remove p w = (None, with_fs (delete p (fs w)) w).
Proof. intros Hp Hc. unfold Remove. munfold. by rewrite Hp, Hc. Qed.

Section Loops.
Variable fst : FileSyncTool.
Local Abbreviation cfg := (Config fst).

Lemma delete_step_fs q w :
  fs ((err ← DeleteFile fst q;
       match err with
       | Some e => emit (LogDeleteFailed q e)
       | None => mret tt
       end) w).2 = fs (DeleteFile fst q w).2.
Proof. unfold mbind, M_bind. by destruct (DeleteFile fst q w) as [[e|] w1]. Qed.

Lemma copy_step_fs q w :
  fs ((err ← CopyFile fst q;
       match err with
       | Some e => emit (LogCopyFailed q e)
       | None => mret tt
       end) w).2 = fs (CopyFile fst q w).2.
Proof. unfold mbind, M_bind. by destruct (CopyFile fst q w) as [[e|] w1]. Qed.


Lemma run_copies_kept l k n w :
  (∀ q, q ∈ l → Join (TargetDir cfg) q ≠ k) →
  fs w !! k = Some n → fs (run_copies fst l w).2 !! k = Some n.
Proof.
  unfold run_copies. revert w. induction l as [|q l IH]; intros w Hl Hk; [done|].
  rewrite for_each_cons. apply IH; [intros q' Hq'; apply Hl; by right|].
  rewrite copy_step_fs. apply CopyFile_keeps; [done|].
  apply not_eq_sym, Hl. by left.
Qed.

Lemma DeleteFile_file p w mode mtime data dm dt :
  DryRun cfg = false → p ≠ [] →
  fs w !! Join (TargetDir cfg) p = Some (File mode mtime data) →
  fs w !! Dir (Join (TargetDir cfg) p) = Some (Directory dm dt) →
  can_write dm = true →
  (DeleteFile fst p w).1 = None
  ∧ fs (DeleteFile fst p w).2 = delete (Join (TargetDir cfg) p) (fs w).
Proof.
  intros Hdry Hp HT HD Hw. unfold DeleteFile. rewrite Hdry. unfold mbind, M_bind.
  rewrite (Remove_file _ _ _ _ _ HT).
  - rewrite when_emit_result. simpl. by rewrite when_emit_fs.
  - eapply parent_check_ok; [by apply T_nonempty|done|done].
Qed.

Lemma run_deletes_removes p l mode mtime data dm dt w :
  DryRun cfg = false → p ≠ [] →
  p ∈ l →
  fs w !! Join (TargetDir cfg) p = Some (File mode mtime data) →
  fs w !! Dir (Join (TargetDir cfg) p) = Some (Directory dm dt) →
  can_write dm = true →
  fs (run_deletes fst l w).2 !! Join (TargetDir cfg) p = None.
Proof.
  intros Hdry Hp Hin HT HD Hw. revert w HT HD.
  induction l as [|q l IH]; intros w HT HD; [by apply elem_of_nil in Hin|].
  unfold run_deletes in *. rewrite for_each_cons.
  destruct (decide (q = p)) as [->|Hne].
  - apply (run_deletes_absent fst _ l). rewrite delete_step_fs.
    destruct (DeleteFile_file p w _ _ _ _ _ Hdry Hp HT HD Hw) as [_ ->].
    by rewrite lookup_delete_eq.
  - apply elem_of_cons in Hin as [->|Hin]; [done|].
    apply IH; [done| |]; rewrite delete_step_fs.
    + apply DeleteFile_keeps; [done|]. by apply not_eq_sym, target_inj.
    + apply (DeleteFile_parent_kept fst q w _ _ _ (Join (TargetDir cfg) p));
        [done|by eexists|by apply T_nonempty|done].
Qed.


End Loops.

Section CarriedOut.
Variable E : Externals.
Variable fst : FileSyncTool.
Local Abbreviation cfg := (Config fst).

(** What a successful source scan says about a plan. *)
Lemma plan_of_scans w p :
  p ∈ plan_toCopy (CompareDirectories E fst w).1
  ∨ p ∈ plan_toDelete (CompareDirectories E fst w).1 →
  ∃ sf tf,
    (ScanDirectory E fst (SourceDir cfg) w).1 = (sf, None)
    ∧ (ScanDirectory E fst (TargetDir cfg) w).1 = (tf, None)
    ∧ (CompareDirectories E fst w).1 = compare_snapshots (SyncMode cfg) sf tf.
Proof.
  intros Hin.
  destruct (CompareDirectories_cases E fst w) as (plan & w' & Hcmp & _ & Hplan).
  rewrite Hcmp in *. simpl in *.
  destruct Hplan as [->|(sf & tf & Hsf & Htf & ->)]; [|by eauto].
  destruct Hin as [Hin|Hin]; by apply elem_of_nil in Hin.
Qed.

(** No recorded source path lies below a path that the source snapshot
    does not hold. *)
Lemma nothing_recorded_below_unrecorded w sf p q :
  (ScanDirectory E fst (SourceDir cfg) w).1 = (sf, None) →
  sf !! p = None → p ≠ [] →
  is_Some (sf !! q) → ¬ p `prefix_of` q.
Proof.
  intros Hsf Hp Hne [s Hq] [r ->].
  destruct (decide (r = [])) as [->|Hr]; [rewrite app_nil_r in Hq; congruence|].
  apply (ScanDirectory_exact E fst _ w sf Hsf) in Hq as (_ & Hreach & _).
  apply reachable_app in Hreach as [Hreach Hlist]; [|done].
  unfold listable in Hlist.
  destruct (fs w !! (SourceDir cfg ++ p)) as [[|mode mtime]|] eqn:Hn; try done.
  assert (sf !! p = Some (snapshot_record E p (Directory mode mtime))) as Hrec.
  { apply (ScanDirectory_exact E fst _ w sf Hsf).
    split; [done|]. split; [done|]. by exists (Directory mode mtime). }
  congruence.
Qed.

End CarriedOut.

Section PlanCarriedOut.
Variable E : Externals.
Variable fst : FileSyncTool.
Local Abbreviation cfg := (Config fst).

(** X27: a planned deletion is carried out.  In a live run, a path of
    [toDelete] that is a regular file in a target directory that can be
    written is gone when the copy loop ends, and nothing has been put
    in its place; with a mode other than [bidirectional] it is gone at
    the end of the cycle. *)
Theorem planned_deletion_is_carried_out w p mode mtime data dm dt :
  DryRun cfg = false →
  p ∈ plan_toDelete (CompareDirectories E fst w).1 →
  fs w !! Join (TargetDir cfg) p = Some (File mode mtime data) →
  fs w !! Dir (Join (TargetDir cfg) p) = Some (Directory dm dt) →
  can_write dm = true →
  fs (sync_until_conflicts E fst w).2 !! Join (TargetDir cfg) p = None
  ∧ (SyncMode cfg ≠ "bidirectional" →
     fs (RunSync E fst w).2 !! Join (TargetDir cfg) p = None).
Proof.
  intros Hdry Hin HT HD Hw.
  assert (fs (sync_until_conflicts E fst w).2 !! Join (TargetDir cfg) p = None) as Hgone.
  { destruct (sync_until_conflicts_plan E fst w) as (w0 & Hfs0 & _ & ->).
    destruct (plan_of_scans E fst w p (or_intror Hin)) as (sf & tf & Hsf & Htf & Hplan).
    rewrite Hplan in *.
    apply elem_of_toDelete in Hin as Hdel. destruct Hdel as (t & Ht & Hsel).
    unfold delete_selected in Hsel. destruct (sf !! p) eqn:Hsp; [done|].
    assert (p ≠ []) as Hp.
    { pose proof (ScanDirectory_sound E fst (TargetDir cfg) w p t) as Hs.
      rewrite Htf in Hs. by destruct (Hs Ht). }
    apply run_copies_absent.
    - intros q Hq Hpre. apply prefix_app_inv in Hpre.
      apply elem_of_toCopy in Hq as (s & Hs & _).
      by apply (nothing_recorded_below_unrecorded E fst w sf p q Hsf Hsp Hp
                  (mk_is_Some _ _ Hs)).
    - apply (run_deletes_removes fst p _ mode mtime data dm dt); try done.
      all: by rewrite Hfs0. }
  split; [done|]. intros Hmode. by rewrite RunSync_one_way.
Qed.


End PlanCarriedOut.

Lemma planned_deletion_is_carried_out_witness :
  fs (sync_until_conflicts example_externals (example_tool "unidirectional" false)
        (example_world stale_tree_fs EmptyString)).2
    !! Join ["dst"] ["old"; "x.txt"] = None
  ∧ (SyncMode (Config (example_tool "unidirectional" false)) ≠ "bidirectional" →
     fs (RunSync example_externals (example_tool "unidirectional" false)
           (example_world stale_tree_fs EmptyString)).2
       !! Join ["dst"] ["old"; "x.txt"] = None).
Proof.
  apply (planned_deletion_is_carried_out example_externals
           (example_tool "unidirectional" false)
           (example_world stale_tree_fs EmptyString) ["old"; "x.txt"]
           420%N 5 (bytes_of "x") 493%N 0).
  - reflexivity.
  - vm_compute. left.
  - reflexivity.
  - reflexivity.
  - reflexivity.
Defined.

